(** * Codespace agent: command execution, file search and file handlers

    A shallow embedding of the handlers of [codespace-agent/app.py]:
    [exec_command] and [search_files], with the text layer that
    [open(p, 'r', encoding='utf-8', errors='ignore')], line iteration and
    [str.rstrip] put under [search_files]; then [read_file], [write_file],
    [delete_file] and [list_directory].

    Conventions.
    - A Python [str] is a list of Unicode code points ([pystr]); the bytes
      of a file are a [list byte].
    - A [Path] is held by its string form, [str(p)].  The [path] of a
      [SearchRequest] holds [Path(req.path)], the path that [search_files]
      makes of the string of the request; the file handlers make theirs
      with [Path_of].
    - The regular-expression engine ([re.compile], [Pattern.search]), the
      file system and [subprocess.run] are the environment of the
      handlers: they are parameters of the model.  A call to the
      environment that can raise returns an [answer].
    - [search_files] returns, beside its result, the list of file-system
      operations it performed, in order. *)

From Stdlib.Strings Require Import String Ascii Byte.
From Stdlib Require Import List ZArith Bool Lia.
From Stdlib Require Import Sorting.Sorted Sorting.Permutation.
Import ListNotations.
Open Scope Z_scope.

(** ** Python strings *)

Definition pystr := list Z.

(** The code points of an ASCII literal. *)
Definition str (s : string) : pystr :=
  map (fun a => Z.of_N (N_of_ascii a)) (list_ascii_of_string s).

Definition bytes (s : string) : list byte := list_byte_of_string s.

Fixpoint pystr_eqb (a b : pystr) : bool :=
  match a, b with
  | [], [] => true
  | x :: a', y :: b' => (x =? y) && pystr_eqb a' b'
  | _, _ => false
  end.

(** Truth value of a string: [if s:] holds for the non-empty ones. *)
Definition truthy (s : pystr) : bool :=
  match s with [] => false | _ :: _ => true end.

Module Text.

(** *** UTF-8 decoding with [errors='ignore']

    The decoder is a byte-at-a-time machine.  Between characters it is
    idle; inside a multi-byte sequence it remembers how many continuation
    bytes are still due, the bits gathered so far and the range the next
    byte has to fall in.  A byte that cannot start a character is dropped;
    a byte that cannot continue the pending sequence drops that sequence
    and is examined again as a start byte; a sequence cut short by the end
    of the data is dropped. *)

Record pending := {
  due : nat;      (* continuation bytes still expected, at least 1 *)
  bits : Z;       (* payload gathered so far *)
  lo : Z;         (* the next byte must lie in [lo, hi] *)
  hi : Z
}.

Definition between (l x h : Z) : bool := (l <=? x) && (x <=? h).

(** What a byte does when the decoder is idle. *)
Definition start (b : Z) : option Z * option pending :=
  if b <? 128 then (Some b, None)
  else if between 194 b 223 then
    (None, Some {| due := 1; bits := Z.land b 31; lo := 128; hi := 191 |})
  else if b =? 224 then
    (None, Some {| due := 2; bits := Z.land b 15; lo := 160; hi := 191 |})
  else if b =? 237 then
    (None, Some {| due := 2; bits := Z.land b 15; lo := 128; hi := 159 |})
  else if between 225 b 239 then
    (None, Some {| due := 2; bits := Z.land b 15; lo := 128; hi := 191 |})
  else if b =? 240 then
    (None, Some {| due := 3; bits := Z.land b 7; lo := 144; hi := 191 |})
  else if between 241 b 243 then
    (None, Some {| due := 3; bits := Z.land b 7; lo := 128; hi := 191 |})
  else if b =? 244 then
    (None, Some {| due := 3; bits := Z.land b 7; lo := 128; hi := 143 |})
  else (None, None).

(** One byte: the code point it completes, if any, and the next state. *)
Definition step (st : option pending) (b : Z) : option Z * option pending :=
  match st with
  | None => start b
  | Some p =>
      if between (lo p) b (hi p) then
        let v := Z.lor (Z.shiftl (bits p) 6) (Z.land b 63) in
        match due p with
        | S (S k) =>
            (None, Some {| due := S k; bits := v; lo := 128; hi := 191 |})
        | _ => (Some v, None)
        end
      else start b
  end.

Fixpoint decode_from (st : option pending) (bs : list byte) : pystr :=
  match bs with
  | [] => []
  | b :: rest =>
      let '(out, st') := step st (Z.of_N (Byte.to_N b)) in
      match out with
      | Some c => c :: decode_from st' rest
      | None => decode_from st' rest
      end
  end.

Definition utf8_ignore (bs : list byte) : pystr := decode_from None bs.

(** *** Universal newlines ([newline=None]): CR LF and CR become LF. *)

Fixpoint universal_newlines (s : pystr) : pystr :=
  match s with
  | [] => []
  | c :: t =>
      if c =? 13 then
        10 :: match t with
              | d :: t' =>
                  if d =? 10 then universal_newlines t'
                  else universal_newlines t
              | [] => []
              end
      else c :: universal_newlines t
  end.

(** *** Line iteration: each line keeps its LF; the last may lack one. *)

Fixpoint lines_from (cur : pystr) (s : pystr) : list pystr :=
  match s with
  | [] => match cur with [] => [] | _ :: _ => [cur] end
  | c :: t =>
      if c =? 10 then (cur ++ [c]) :: lines_from [] t
      else lines_from (cur ++ [c]) t
  end.

Definition readlines (data : list byte) : list pystr :=
  lines_from [] (universal_newlines (utf8_ignore data)).

(** *** [str.rstrip()] with no argument strips trailing whitespace, the
    characters for which [str.isspace] holds. *)

Definition isspace (c : Z) : bool :=
  between 9 c 13 || between 28 c 32 || (c =? 133) || (c =? 160)
  || (c =? 5760) || between 8192 c 8202 || (c =? 8232) || (c =? 8233)
  || (c =? 8239) || (c =? 8287) || (c =? 12288).

Fixpoint rstrip (s : pystr) : pystr :=
  match s with
  | [] => []
  | c :: t =>
      match rstrip t with
      | [] => if isspace c then [] else [c]
      | t' => c :: t'
      end
  end.

(** The text of a line without its line terminator, as the specification
    words the [lineContent] field: one trailing LF removed, nothing else. *)
Fixpoint strip_newline (s : pystr) : pystr :=
  match s with
  | [] => []
  | [c] => if c =? 10 then [] else [c]
  | c :: t => c :: strip_newline t
  end.

End Text.

(** ** The environment of the two handlers *)

(** What a call that may raise does: it raises the exception named, or
    returns a value. *)
Inductive answer (A : Type) :=
| Raises (exc : pystr)
| Returns (a : A).

Arguments Raises {A} exc.
Arguments Returns {A} a.

(** What [re.compile(p)] does: it returns a pattern, raises [re.error]
    because [p] is not a valid regular expression, or raises something
    else ([OverflowError], [RecursionError], ...). *)
Inductive compile_result (C : Type) :=
| Compiled (c : C)
| ReError
| CompileRaises (exc : pystr).

Arguments Compiled {C} c.
Arguments ReError {C}.
Arguments CompileRaises {C} exc.

(** [re]: [re_compile p] is what [re.compile(p)] does; [re_search r s]
    tells whether [r.search(s)] finds a match anywhere in [s]. *)
Class Regex := {
  compiled : Type;
  re_compile : pystr -> compile_result compiled;
  re_search : compiled -> pystr -> bool
}.

Definition Path := pystr.

(** What [open(p, 'r', ...)] and the iteration over the file object do.
    [Unopenable]: [open] raises.  [Content data fault]: the file opens on
    the bytes [data]; with [fault = Some k] the read raises once [k] lines
    have been delivered, with [fault = None] it reaches the end of the
    file. *)
Inductive file_state :=
| Unopenable
| Content (data : list byte) (fault : option nat).

(** The file system as [search_files] observes it, unchanged during one
    request.  [exists_ p] and [is_file p] are what [p.exists()] and
    [p.is_file()] do: they return a boolean or raise an [OSError] (no
    permission to look into the directory, a name too long, ...).
    [rglob p] lists [p.rglob("*")] in enumeration order. *)
Record FileSystem := {
  exists_ : Path -> answer bool;
  is_file : Path -> answer bool;
  rglob : Path -> list Path;
  open_ : Path -> file_state
}.

(** The lines the iteration [for line in f] delivers before it ends or
    raises; [None] when the file does not open. *)
Definition delivered (s : file_state) : option (list pystr) :=
  match s with
  | Unopenable => None
  | Content data None => Some (Text.readlines data)
  | Content data (Some k) => Some (firstn k (Text.readlines data))
  end.

(** The operations on the file system, as they are recorded.  [EvNext p n]
    is the [n]-th request for a line of [p]: it delivers line [n], or finds
    the end of the file, or raises. *)
Inductive io_event :=
| EvExists (p : Path)
| EvIsFile (p : Path)
| EvRglob (p : Path)
| EvOpen (p : Path)
| EvNext (p : Path) (n : Z).

(** What a handler raises: an [HTTPException] of its own, or an exception
    that passes through it uncaught, the [re.error] of [re.compile] or
    whatever else a call it makes raised. *)
Inductive raised :=
| HTTPException (status_code : Z)
| re_error (pattern : pystr)
| uncaught (exc : pystr).

(** ** Requests and responses (the pydantic models) *)

Record ExecRequest := {
  command : pystr;
  cwd : option pystr;
  timeout_seconds : Z
}.

Record ExecResponse := {
  exit_code : Z;
  stdout : pystr;
  stderr : pystr
}.

Record SearchRequest := {
  pattern : pystr;
  path : Path;
  file_pattern : option pystr;
  max_results : Z
}.

Record SearchMatch := {
  file_path : pystr;
  line_number : Z;
  line_content : pystr
}.

Record SearchResponse := {
  resp_pattern : pystr;
  matches : list SearchMatch;
  total_matches : Z
}.

(** [len] of a Python list. *)
Definition len {A} (l : list A) : Z := Z.of_nat (length l).

(** ** [search_files] *)

Section Search.

Context {R : Regex}.
Variable fs : FileSystem.

(** The list [matches] under construction and the operations so far. *)
Record scan := {
  found : list SearchMatch;
  trace : list io_event
}.

Definition log (e : io_event) (s : scan) : scan :=
  {| found := found s; trace := trace s ++ [e] |}.

Definition append (m : SearchMatch) (s : scan) : scan :=
  {| found := found s ++ [m]; trace := trace s |}.

(** Whether [f.is_file()] returns [True]. *)
Definition regular (f : Path) : bool :=
  match is_file fs f with Returns true => true | _ => false end.

(** The list comprehension [[f for f in search_path.rglob("*") if
    f.is_file() and keep(f)]]: the items in order, [is_file] asked of each;
    an [is_file] that raises ends the comprehension, and the handler, with
    that exception. *)
Fixpoint comprehension (keep : Path -> bool) (items : list Path)
  : list io_event * (raised + list Path) :=
  match items with
  | [] => ([], inr [])
  | f :: rest =>
      match is_file fs f with
      | Raises exc => ([EvIsFile f], inl (uncaught exc))
      | Returns b =>
          match comprehension keep rest with
          | (tr, inl e) => (EvIsFile f :: tr, inl e)
          | (tr, inr files) =>
              (EvIsFile f :: tr,
               inr (if b && keep f then f :: files else files))
          end
      end
  end.

(** The candidate files.  A regular file is its own single candidate and
    [file_pattern] is not looked at; otherwise the directory is walked and,
    when [file_pattern] is a non-empty string, it is compiled and kept as a
    filter on the path strings. *)
Definition files_to_search (req : SearchRequest)
  : list io_event * (raised + list Path) :=
  let search_path := path req in
  let walk keep :=
    let '(tr, r) := comprehension keep (rglob fs search_path) in
    (EvIsFile search_path :: EvRglob search_path :: tr, r) in
  match is_file fs search_path with
  | Raises exc => ([EvIsFile search_path], inl (uncaught exc))
  | Returns true => ([EvIsFile search_path], inr [search_path])
  | Returns false =>
      match file_pattern req with
      | Some fp =>
          if truthy fp then
            match re_compile fp with
            | ReError => ([EvIsFile search_path], inl (re_error fp))
            | CompileRaises exc =>
                ([EvIsFile search_path], inl (uncaught exc))
            | Compiled file_glob => walk (re_search file_glob)
            end
          else walk (fun _ => true)
      | None => walk (fun _ => true)
      end
  end.

(** The inner loop, [for line_num, line in enumerate(f, 1)], from line
    number [n] on. *)
Fixpoint scan_lines (pat : compiled) (fp : Path) (cap : Z) (n : Z)
    (lines : list pystr) (s : scan) : scan :=
  match lines with
  | [] => log (EvNext fp n) s
  | line :: rest =>
      let s := log (EvNext fp n) s in
      if re_search pat line then
        let s := append {| file_path := fp; line_number := n;
                           line_content := Text.rstrip line |} s in
        if len (found s) >=? cap then s
        else scan_lines pat fp cap (n + 1) rest s
      else scan_lines pat fp cap (n + 1) rest s
  end.

(** The outer loop, [for file_path in files_to_search]; a file that does
    not open, or whose read raises, is left by [except Exception:
    continue]. *)
Fixpoint scan_files (pat : compiled) (cap : Z) (files : list Path)
    (s : scan) : scan :=
  match files with
  | [] => s
  | fp :: rest =>
      if len (found s) >=? cap then s
      else
        let s := log (EvOpen fp) s in
        match delivered (open_ fs fp) with
        | None => scan_files pat cap rest s
        | Some lines => scan_files pat cap rest (scan_lines pat fp cap 1 lines s)
        end
  end.

Definition search_files (req : SearchRequest)
  : list io_event * (raised + SearchResponse) :=
  let search_path := path req in
  match exists_ fs search_path with
  | Raises exc => ([EvExists search_path], inl (uncaught exc))
  | Returns false => ([EvExists search_path], inl (HTTPException 404))
  | Returns true =>
      match re_compile (pattern req) with
      | ReError => ([EvExists search_path], inl (re_error (pattern req)))
      | CompileRaises exc => ([EvExists search_path], inl (uncaught exc))
      | Compiled pat =>
          match files_to_search req with
          | (tr, inl e) => (EvExists search_path :: tr, inl e)
          | (tr, inr files) =>
              let s := scan_files pat (max_results req) files
                         {| found := [];
                            trace := EvExists search_path :: tr |} in
              (trace s,
               inr {| resp_pattern := pattern req;
                      matches := found s;
                      total_matches := len (found s) |})
          end
      end
  end.

(** *** The matches of a corpus, read off the files without a cap *)

Definition match_of (fp : Path) (n : Z) (line : pystr) : SearchMatch :=
  {| file_path := fp; line_number := n; line_content := Text.rstrip line |}.

(** The matching lines among [lines], numbered from [n], in line order. *)
Fixpoint line_matches (pat : compiled) (fp : Path) (n : Z)
    (lines : list pystr) : list SearchMatch :=
  match lines with
  | [] => []
  | line :: rest =>
      (if re_search pat line then [match_of fp n line] else [])
      ++ line_matches pat fp (n + 1) rest
  end.

Definition file_matches (pat : compiled) (fp : Path) : list SearchMatch :=
  match delivered (open_ fs fp) with
  | None => []
  | Some lines => line_matches pat fp 1 lines
  end.

(** All matches of the candidates, in traversal order. *)
Definition all_matches (pat : compiled) (files : list Path)
  : list SearchMatch :=
  flat_map (file_matches pat) files.


Definition is_read (e : io_event) : bool :=
  match e with EvOpen _ | EvNext _ _ => true | _ => false end.

(** The last operation recorded is the read of the line that gave the last
    match. *)
Definition ends_on_last_match (tr : list io_event)
    (ms : list SearchMatch) : Prop :=
  exists tr' ms' m,
    tr = tr' ++ [EvNext (file_path m) (line_number m)] /\ ms = ms' ++ [m].

End Search.

(** ** [exec_command] *)

(** How [subprocess.run] ends: with a [CompletedProcess], by raising
    [TimeoutExpired], or by raising something else (the working directory
    is missing, the output does not decode, ...). *)
Inductive run_outcome :=
| CompletedProcess (returncode : Z) (out err : pystr)
| TimeoutExpired
| RunError (exc : pystr).

Section Exec.

(** [subprocess.run(command, cwd=.., shell=True, capture_output=True,
    text=True, timeout=..)] and [str(Path(".").resolve())]. *)
Variable subprocess_run : pystr -> pystr -> Z -> run_outcome.
Variable resolved_dot : pystr.

(** [req.cwd or str(Path(".").resolve())] *)
Definition exec_cwd (req : ExecRequest) : pystr :=
  match cwd req with
  | Some c => if truthy c then c else resolved_dot
  | None => resolved_dot
  end.

Definition exec_command (req : ExecRequest) : raised + ExecResponse :=
  match subprocess_run (command req) (exec_cwd req) (timeout_seconds req) with
  | CompletedProcess rc o e =>
      inr {| exit_code := rc; stdout := o; stderr := e |}
  | TimeoutExpired => inl (HTTPException 408)
  | RunError exc => inl (uncaught exc)
  end.

End Exec.

(** A path string is absolute when it starts with a slash. *)
Definition is_absolute (p : pystr) : bool :=
  match p with c :: _ => c =? 47 | [] => false end.

(** [req] with another [file_pattern]. *)
Definition with_file_pattern (fp : option pystr) (req : SearchRequest)
  : SearchRequest :=
  {| pattern := pattern req; path := path req; file_pattern := fp;
     max_results := max_results req |}.

(** Whether the bytes are well-formed UTF-8, on the decoder's own machine:
    no byte is dropped and no sequence is left open. *)
Fixpoint valid_from (st : option Text.pending) (bs : list byte) : bool :=
  match bs with
  | [] => match st with None => true | Some _ => false end
  | b :: rest =>
      let z := Z.of_N (Byte.to_N b) in
      match st with
      | None =>
          match Text.start z with
          | (None, None) => false
          | (_, st') => valid_from st' rest
          end
      | Some p =>
          Text.between (Text.lo p) z (Text.hi p)
          && valid_from (snd (Text.step st z)) rest
      end
  end.

Definition utf8_valid (bs : list byte) : bool := valid_from None bs.

(** ** A concrete environment

    Used to run the model on concrete requests. *)

Module Demo.

Open Scope string_scope.

Fixpoint starts_with (p s : pystr) : bool :=
  match p, s with
  | [], _ => true
  | x :: p', y :: s' => (x =? y)%Z && starts_with p' s'
  | _ :: _, [] => false
  end.

Fixpoint contains (p s : pystr) : bool :=
  starts_with p s
  || match s with [] => false | _ :: s' => contains p s' end.

Definition metachar (c : Z) : bool :=
  existsb (Z.eqb c) (str ".^$*+?{}[]|()" ++ [92%Z]).

(** The engine on the patterns used below: a pattern of ordinary
    characters compiles to the search for that substring, as in [re]; the
    only other pattern used is "(", which [re.compile] rejects (missing
    closing parenthesis).  A pattern with a metacharacter is outside this
    fragment and is answered [ReError]. *)
#[export] Instance literal_re : Regex := {|
  compiled := pystr;
  re_compile p := if existsb metachar p then ReError else Compiled p;
  re_search := contains
|}.

Definition files : list (Path * file_state) :=
  [ (str "proj/a.txt", Content (bytes "foo  
bar
foo bar
") None);
    (str "proj/sub/b.bin", Content ([xff] ++ bytes "foo
" ++ [x80]) None);
    (str "proj/locked", Unopenable);
    (str "proj/c.txt", Content (bytes "foo
") None) ].

Definition dirs : list Path :=
  [str "proj"; str "proj/sub"; str "vault"; str "vault/closed"].

(** What lies in [vault/closed], a directory that may be listed and not
    searched: asking anything of it raises. *)
Definition forbidden (p : Path) : bool :=
  starts_with (str "vault/closed/") p.

Fixpoint lookup (p : Path) (l : list (Path * file_state))
  : option file_state :=
  match l with
  | [] => None
  | (q, s) :: l' => if pystr_eqb p q then Some s else lookup p l'
  end.

(** [rglob] gives the entries of a directory before those of its
    subdirectories. *)
Definition fs : FileSystem := {|
  exists_ p :=
    if forbidden p then Raises (str "PermissionError")
    else Returns match lookup p files with
                 | Some _ => true
                 | None => existsb (pystr_eqb p) dirs
                 end;
  is_file p :=
    if forbidden p then Raises (str "PermissionError")
    else Returns match lookup p files with
                 | Some _ => true
                 | None => false
                 end;
  rglob p :=
    if pystr_eqb p (str "proj") then
      [str "proj/a.txt"; str "proj/sub"; str "proj/locked";
       str "proj/c.txt"; str "proj/sub/b.bin"]
    else if pystr_eqb p (str "proj/sub") then [str "proj/sub/b.bin"]
    else if pystr_eqb p (str "vault") then
      [str "vault/closed"; str "vault/closed/key"]
    else [];
  open_ p := match lookup p files with Some s => s | None => Unopenable end
|}.

Definition request (pat root : string) (fp : option string) (cap : Z)
  : SearchRequest :=
  {| pattern := str pat; path := str root;
     file_pattern := option_map str fp; max_results := cap |}.

(** A shell that knows two commands: [exit 3], and [sleep 10], which takes
    ten seconds. *)
Definition run (command cwd : pystr) (timeout : Z) : run_outcome :=
  if pystr_eqb command (str "exit 3") then CompletedProcess 3 [] []
  else if pystr_eqb command (str "sleep 10") then
    if (timeout <? 10)%Z then TimeoutExpired else CompletedProcess 0 [] []
  else CompletedProcess 127 [] (str "command not found").

Definition resolved_dot : pystr := str "/workspaces/app".

End Demo.

(** ** The other handlers: file read, write, delete and directory listing *)

(** *** UTF-8 encoding, [content.encode("utf-8")], and strict decoding *)

Module Utf8.

(** The bytes of one code point; [None] where [encode] raises
    [UnicodeEncodeError] (a surrogate) or the value is no code point. *)
Definition encode_char (c : Z) : option (list Z) :=
  if c <? 0 then None
  else if c <? 128 then Some [c]
  else if c <? 2048 then Some [192 + c / 64; 128 + c mod 64]
  else if Text.between 55296 c 57343 then None
  else if c <? 65536 then
    Some [224 + c / 4096; 128 + (c / 64) mod 64; 128 + c mod 64]
  else if c <? 1114112 then
    Some [240 + c / 262144; 128 + (c / 4096) mod 64;
          128 + (c / 64) mod 64; 128 + c mod 64]
  else None.

Definition byte_of (z : Z) : byte :=
  match Byte.of_N (Z.to_N z) with Some b => b | None => x00 end.

Fixpoint encode (s : pystr) : option (list byte) :=
  match s with
  | [] => Some []
  | c :: t =>
      match encode_char c, encode t with
      | Some bs, Some r => Some (map byte_of bs ++ r)
      | _, _ => None
      end
  end.

(** Decoding with [errors='strict']: [None] where it raises
    [UnicodeDecodeError]; on well-formed bytes nothing is dropped, and the
    text is the one the lenient decoder gives. *)
Definition decode (data : list byte) : option pystr :=
  if utf8_valid data then Some (Text.utf8_ignore data) else None.

(** A code point that a [str] can hold and UTF-8 can carry. *)
Definition scalar (c : Z) : Prop :=
  0 <= c < 55296 \/ 57343 < c < 1114112.

End Utf8.

(** *** Path components, of a path string in normal form *)

(** The text before and after the last slash, when there is one. *)
Fixpoint split_last (s : pystr) : option (pystr * pystr) :=
  match s with
  | [] => None
  | c :: t =>
      match split_last t with
      | Some (d, n) => Some (c :: d, n)
      | None => if c =? 47 then Some ([], t) else None
      end
  end.

(** [p.name]: the last component; the path "." has none. *)
Definition basename (p : Path) : pystr :=
  match split_last p with
  | Some (_, n) => n
  | None => if pystr_eqb p [46] then [] else p
  end.

(** [p.parent] *)
Definition parent (p : Path) : Path :=
  match split_last p with
  | Some ([], _) => [47]
  | Some (d, _) => d
  | None => [46]
  end.

(** *** Comparison of strings and [list.sort(key=...)] *)

(** [str] values compare code point by code point. *)
Fixpoint pystr_compare (a b : pystr) : comparison :=
  match a, b with
  | [], [] => Eq
  | [], _ :: _ => Lt
  | _ :: _, [] => Gt
  | x :: a', y :: b' =>
      match x ?= y with
      | Eq => pystr_compare a' b'
      | c => c
      end
  end.

Definition pystr_lt (a b : pystr) : bool :=
  match pystr_compare a b with Lt => true | _ => false end.

(** Tuples [(bool, str)] compare on the first component, [False] before
    [True], then on the second. *)
Definition key_lt (k1 k2 : bool * pystr) : bool :=
  match fst k1, fst k2 with
  | false, true => true
  | true, false => false
  | _, _ => pystr_lt (snd k1) (snd k2)
  end.

Section Sorting.

Variables (A K : Type) (key : A -> K) (lt : K -> K -> bool).

(** [list.sort] is stable, and the stable sorted arrangement of a list is
    unique: inserting the elements from the last to the first, each before
    the first element that is not smaller, computes it. *)
Fixpoint insert (x : A) (l : list A) : list A :=
  match l with
  | [] => [x]
  | y :: l' => if lt (key y) (key x) then y :: insert x l' else x :: l
  end.

Fixpoint sort_by (l : list A) : list A :=
  match l with
  | [] => []
  | x :: l' => insert x (sort_by l')
  end.

End Sorting.

Arguments insert {A K} key lt x l.
Arguments sort_by {A K} key lt l.

(** *** The pydantic models *)

Module ReadRequest.
Record t := { path : pystr }.
End ReadRequest.

Module ReadResponse.
Record t := { path : pystr; content : pystr }.
End ReadResponse.

Module WriteRequest.
Record t := { path : pystr; content : pystr; create_parents : bool }.
End WriteRequest.

Module WriteResponse.
Record t := { path : pystr; bytes_written : Z }.
End WriteResponse.

Module DeleteRequest.
Record t := { path : pystr; recursive : bool }.
End DeleteRequest.

Module DeleteResponse.
Record t := { path : pystr; deleted : bool }.
End DeleteResponse.

Module ListDirRequest.
Record t := { path : pystr; include_hidden : bool }.
End ListDirRequest.

Module FileInfo.
Record t := {
  name : pystr;
  path : pystr;
  is_file : bool;
  is_dir : bool;
  size : option Z
}.
End FileInfo.

Module ListDirResponse.
Record t := { path : pystr; files : list FileInfo.t }.
End ListDirResponse.

(** *** The file system as these handlers use it *)

(** What [p.is_dir()], [p.iterdir()] and [p.stat().st_size] do; the first
    two return or raise an [OSError]. *)
Record Directory := {
  is_dir : Path -> answer bool;
  iterdir : Path -> answer (list Path);
  st_size : Path -> Z
}.

(** [p.unlink()], [p.rmdir()] and [shutil.rmtree(p)]. *)
Inductive removal :=
| Unlink (p : Path)
| Rmdir (p : Path)
| Rmtree (p : Path).

Definition target (r : removal) : Path :=
  match r with Unlink p | Rmdir p | Rmtree p => p end.

(** The environment of the file handlers.  [Path_of s] is [str(Path(s))],
    the string in the normal form of [pathlib].  The states of the file
    system come with what is observed of them and with the calls that
    change them; each such call gives the state it leaves and, when it
    raises, the exception: [mkdir_parents w d] is [d.mkdir(parents=True,
    exist_ok=True)], [write_bytes w p data] is [p.write_bytes(data)],
    [os_remove w r] the removal [r], which raises an [OSError] if at all. *)
Class World := {
  world : Type;
  Path_of : pystr -> Path;
  view : world -> FileSystem;
  dirs : world -> Directory;
  mkdir_parents : world -> Path -> world * option pystr;
  write_bytes : world -> Path -> list byte -> world * option pystr;
  os_remove : world -> removal -> world * option pystr
}.

Section Files.

Context {W : World}.

(** [str.lower]. *)
Variable lower : pystr -> pystr.

Definition read_file (w : world) (req : ReadRequest.t)
  : raised + ReadResponse.t :=
  let path := Path_of (ReadRequest.path req) in
  match is_file (view w) path with
  | Raises exc => inl (uncaught exc)
  | Returns false => inl (HTTPException 404)
  | Returns true =>
      match open_ (view w) path with
      | Content data None =>
          match Utf8.decode data with
          | Some text =>
              inr {| ReadResponse.path := path;
                     ReadResponse.content := Text.universal_newlines text |}
          | None => inl (uncaught (str "UnicodeDecodeError"))
          end
      | _ => inl (uncaught (str "OSError"))
      end
  end.

Definition write_file (w : world) (req : WriteRequest.t)
  : world * (raised + WriteResponse.t) :=
  let path := Path_of (WriteRequest.path req) in
  let '(w1, e1) :=
    if WriteRequest.create_parents req then mkdir_parents w (parent path)
    else (w, None) in
  match e1 with
  | Some exc => (w1, inl (uncaught exc))
  | None =>
      match Utf8.encode (WriteRequest.content req) with
      | None => (w1, inl (uncaught (str "UnicodeEncodeError")))
      | Some data =>
          let '(w2, e2) := write_bytes w1 path data in
          match e2 with
          | Some exc => (w2, inl (uncaught exc))
          | None =>
              (w2, inr {| WriteResponse.path := path;
                          WriteResponse.bytes_written := len data |})
          end
      end
  end.


(** [path.exists()] stands before the [try]; within it, [is_file] and
    [is_dir] raise an [OSError] if at all, caught like that of the
    removal. *)
Definition delete_file (w : world) (req : DeleteRequest.t)
  : world * (raised + DeleteResponse.t) :=
  let path := Path_of (DeleteRequest.path req) in
  match exists_ (view w) path with
  | Raises exc => (w, inl (uncaught exc))
  | Returns false => (w, inl (HTTPException 404))
  | Returns true =>
      let '(w', err) :=
        match is_file (view w) path with
        | Raises exc => (w, Some exc)
        | Returns true => os_remove w (Unlink path)
        | Returns false =>
            match is_dir (dirs w) path with
            | Raises exc => (w, Some exc)
            | Returns true =>
                if DeleteRequest.recursive req then os_remove w (Rmtree path)
                else os_remove w (Rmdir path)
            | Returns false => (w, None)
            end
        end in
      match err with
      | None =>
          (w', inr {| DeleteResponse.path := path;
                      DeleteResponse.deleted := true |})
      | Some _ => (w', inl (HTTPException 500))
      end
  end.

(** [not req.include_hidden and item.name.startswith('.')] sends an item
    to [continue]; the others are listed. *)
Definition hidden (item : Path) : bool :=
  match basename item with c :: _ => c =? 46 | [] => false end.

Definition listed (include_hidden : bool) (item : Path) : bool :=
  negb (negb include_hidden && hidden item).

(** One [FileInfo(...)]: [item.is_file()] and [item.is_dir()] are asked in
    this order and either may raise; a regular file gets its size. *)
Definition file_info (w : world) (item : Path) : answer FileInfo.t :=
  match is_file (view w) item with
  | Raises exc => Raises exc
  | Returns f =>
      match is_dir (dirs w) item with
      | Raises exc => Raises exc
      | Returns d =>
          Returns {| FileInfo.name := basename item;
                     FileInfo.path := item;
                     FileInfo.is_file := f;
                     FileInfo.is_dir := d;
                     FileInfo.size :=
                       if f then Some (st_size (dirs w) item) else None |}
      end
  end.

(** The loop over [path.iterdir()]: an item that raises ends it. *)
Fixpoint collect (w : world) (include_hidden : bool) (items : list Path)
  : answer (list FileInfo.t) :=
  match items with
  | [] => Returns []
  | item :: rest =>
      if listed include_hidden item then
        match file_info w item with
        | Raises exc => Raises exc
        | Returns info =>
            match collect w include_hidden rest with
            | Raises exc => Raises exc
            | Returns infos => Returns (info :: infos)
            end
        end
      else collect w include_hidden rest
  end.

(** [key=lambda x: (not x.is_dir, x.name.lower())] *)
Definition sort_key (x : FileInfo.t) : bool * pystr :=
  (negb (FileInfo.is_dir x), lower (FileInfo.name x)).

(** The entries whose sort key is [(negb d, n)]. *)
Definition same_key (d : bool) (n : pystr) (x : FileInfo.t) : bool :=
  Bool.eqb (FileInfo.is_dir x) d && pystr_eqb (lower (FileInfo.name x)) n.

Definition list_directory (w : world) (req : ListDirRequest.t)
  : raised + ListDirResponse.t :=
  let path := Path_of (ListDirRequest.path req) in
  match exists_ (view w) path with
  | Raises exc => inl (uncaught exc)
  | Returns false => inl (HTTPException 404)
  | Returns true =>
      match is_dir (dirs w) path with
      | Raises exc => inl (uncaught exc)
      | Returns false => inl (HTTPException 400)
      | Returns true =>
          match iterdir (dirs w) path with
          | Raises exc => inl (uncaught exc)
          | Returns items =>
              match collect w (ListDirRequest.include_hidden req) items with
              | Raises exc => inl (uncaught exc)
              | Returns files =>
                  inr {| ListDirResponse.path := path;
                         ListDirResponse.files :=
                           sort_by sort_key key_lt files |}
              end
          end
      end
  end.

End Files.

(** ** [subprocess.run] on a process *)

Module Subprocess.

(** A process as [subprocess.run(command, cwd=.., shell=True,
    capture_output=True, text=True, timeout=..)] meets it: the status the
    operating system reports when it exits, the time after the spawn at
    which it exits, the time at which both pipes have reached their end (a
    descendant can hold them open after the process has exited), and the
    bytes written to them.  Times are in seconds, rounded up to a whole
    number, as the timeout is a whole number of seconds. *)
Record process := {
  exit_status : Z;
  exit_time : Z;
  eof_time : Z;
  out_bytes : list byte;
  err_bytes : list byte
}.

Section Run.

(** Starting the shell on [command] in [cwd]: the exception raised (the
    directory is missing, ...) or the process. *)
Variable spawn : pystr -> pystr -> pystr + process.

(** What [text=True] does to the bytes read: the strict decoding with the
    codec of the locale, then the translation of newlines; [None] where it
    raises [UnicodeDecodeError]. *)
Variable decode : list byte -> option pystr.

(** The output is read to the end of both pipes and the process waited
    for, within [timeout]; what was read is then decoded. *)
Definition run (command cwd : pystr) (timeout : Z) : run_outcome :=
  match spawn command cwd with
  | inl exc => RunError exc
  | inr p =>
      if (exit_time p <=? timeout) && (eof_time p <=? timeout) then
        match decode (out_bytes p), decode (err_bytes p) with
        | Some o, Some e => CompletedProcess (exit_status p) o e
        | _, _ => RunError (str "UnicodeDecodeError")
        end
      else TimeoutExpired
  end.

End Run.

End Subprocess.

(** A shell that knows four commands, under a UTF-8 locale. *)
Module Shell.

Import Subprocess.

Definition quick (status : Z) (out : list byte) : process :=
  {| exit_status := status; exit_time := 1; eof_time := 1;
     out_bytes := out; err_bytes := [] |}.

Definition spawn (command cwd : pystr) : pystr + process :=
  if pystr_eqb command (str "exit 3") then inr (quick 3 [])
  else if pystr_eqb command (str "kill -9 $$") then inr (quick (-9) [])
  else if pystr_eqb command (str "printf '\377'; exit 0") then
    inr (quick 0 [xff])
  else if pystr_eqb command (str "sleep 3 & exit 7") then
    inr {| exit_status := 7; exit_time := 1; eof_time := 3;
           out_bytes := []; err_bytes := [] |}
  else inr {| exit_status := 127; exit_time := 1; eof_time := 1;
              out_bytes := []; err_bytes := bytes "command not found" |}.

Definition decode (data : list byte) : option pystr :=
  option_map Text.universal_newlines (Utf8.decode data).

Definition request (cmd : string) (timeout : Z) : ExecRequest :=
  {| command := str cmd; cwd := None; timeout_seconds := timeout |}.

End Shell.

(** [req] with another [max_results]. *)
Definition with_max_results (cap : Z) (req : SearchRequest)
  : SearchRequest :=
  {| pattern := pattern req; path := path req;
     file_pattern := file_pattern req; max_results := cap |}.

(** An event that touches a file's content does so on one of [files]. *)
Definition touches_only (files : list Path) (e : io_event) : Prop :=
  match e with
  | EvOpen p | EvNext p _ => In p files
  | _ => True
  end.

(** A file system with one file, whose read raises after its first line. *)
Definition faulty_fs : FileSystem := {|
  exists_ p := Returns true;
  is_file p := Returns true;
  rglob p := [];
  open_ p := Content (bytes "foo
bar foo
") (Some 1%nat)
|}.

(** What a pending sequence can still become, whatever bytes complete it. *)
Definition completes (p : Text.pending) : Prop :=
  0 <= Text.bits p /\ 128 <= Text.lo p /\ Text.hi p <= 191 /\
  match Text.due p with
  | 1%nat =>
      forall x, Text.lo p <= x <= Text.hi p ->
                Utf8.scalar (Text.bits p * 64 + (x - 128))
  | 2%nat =>
      forall x y, Text.lo p <= x <= Text.hi p -> 128 <= y <= 191 ->
                  Utf8.scalar ((Text.bits p * 64 + (x - 128)) * 64 + (y - 128))
  | 3%nat =>
      forall x y z,
        Text.lo p <= x <= Text.hi p -> 128 <= y <= 191 -> 128 <= z <= 191 ->
        Utf8.scalar (((Text.bits p * 64 + (x - 128)) * 64 + (y - 128)) * 64
                     + (z - 128))
  | _ => False
  end.

Definition state_ok (st : option Text.pending) : Prop :=
  match st with None => True | Some p => completes p end.

(** ** A concrete file system that changes

    A table from paths to nodes, used to run the handlers above on
    concrete requests. *)

Module Disk.

Inductive node :=
| NFile (data : list byte)
| NDir
| NOther.

Definition state := list (Path * node).

Fixpoint find (p : Path) (s : state) : option node :=
  match s with
  | [] => None
  | (q, n) :: s' => if pystr_eqb p q then Some n else find p s'
  end.

Definition drop (p : Path) (s : state) : state :=
  filter (fun e => negb (pystr_eqb p (fst e))) s.

Definition put (p : Path) (n : node) (s : state) : state :=
  drop p s ++ [(p, n)].

(** Whether [q] lies below [p]; below "." lies every other relative
    path. *)
Definition under (p q : Path) : bool :=
  if pystr_eqb p [46] then negb (pystr_eqb q [46]) && negb (is_absolute q)
  else Demo.starts_with (p ++ [47]) q.

Definition is_node_dir (p : Path) (s : state) : bool :=
  match find p s with Some NDir => true | _ => false end.

Definition observe (s : state) : FileSystem := {|
  exists_ p :=
    Returns match find p s with Some _ => true | None => false end;
  is_file p :=
    Returns match find p s with Some (NFile _) => true | _ => false end;
  rglob p := filter (under p) (map fst s);
  open_ p :=
    match find p s with
    | Some (NFile data) => Content data None
    | _ => Unopenable
    end
|}.

(** The entries of [p]: the paths other than [p] whose parent it is. *)
Definition children (p : Path) (s : state) : list Path :=
  filter (fun q => pystr_eqb (parent q) p && negb (pystr_eqb q p))
         (map fst s).

Definition directory (s : state) : Directory := {|
  is_dir p := Returns (is_node_dir p s);
  iterdir p :=
    if is_node_dir p s then Returns (children p s)
    else Raises (str "NotADirectoryError");
  st_size p :=
    match find p s with Some (NFile data) => len data | _ => 4096 end
|}.

(** Creates [d] and the ancestors that are missing; [n] bounds the depth. *)
Fixpoint mkdirs (n : nat) (d : Path) (s : state) : state * option pystr :=
  match find d s with
  | Some NDir => (s, None)
  | Some _ => (s, Some (str "FileExistsError"))
  | None =>
      match n with
      | O => (s, Some (str "FileNotFoundError"))
      | S n' =>
          let '(s1, e) := mkdirs n' (parent d) s in
          match e with
          | Some exc => (s1, Some exc)
          | None => (put d NDir s1, None)
          end
      end
  end.

Definition write (s : state) (p : Path) (data : list byte)
  : state * option pystr :=
  match find p s with
  | Some NDir => (s, Some (str "IsADirectoryError"))
  | _ =>
      if is_node_dir (parent p) s then (put p (NFile data) s, None)
      else (s, Some (str "FileNotFoundError"))
  end.

Definition remove_node (s : state) (r : removal) : state * option pystr :=
  match r with
  | Unlink p =>
      match find p s with
      | Some NDir => (s, Some (str "IsADirectoryError"))
      | Some _ => (drop p s, None)
      | None => (s, Some (str "FileNotFoundError"))
      end
  | Rmdir p =>
      if is_node_dir p s then
        match children p s with
        | _ :: _ => (s, Some (str "OSError: Directory not empty"))
        | [] => (drop p s, None)
        end
      else (s, Some (str "NotADirectoryError"))
  | Rmtree p =>
      if is_node_dir p s then
        (filter (fun e => negb (under p (fst e))) (drop p s), None)
      else (s, Some (str "NotADirectoryError"))
  end.

(** The pieces of a string between its slashes. *)
Fixpoint split_slash (cur : pystr) (s : pystr) : list pystr :=
  match s with
  | [] => [cur]
  | c :: t =>
      if c =? 47 then cur :: split_slash [] t
      else split_slash (cur ++ [c]) t
  end.

Fixpoint join_slash (l : list pystr) : pystr :=
  match l with
  | [] => []
  | [c] => c
  | c :: l' => c ++ 47 :: join_slash l'
  end.

(** The normal form of a path string: empty and "." components go, and
    slashes are not repeated nor left at the end; the empty path is ".". *)
Definition normal (s : pystr) : Path :=
  let body :=
    join_slash
      (filter (fun c => negb (pystr_eqb c [] || pystr_eqb c [46]))
              (split_slash [] s)) in
  match s with
  | 47 :: 47 :: 47 :: _ => 47 :: body
  | 47 :: 47 :: _ => 47 :: 47 :: body
  | 47 :: _ => 47 :: body
  | _ => match body with [] => [46] | _ :: _ => body end
  end.

#[export] Instance disk : World := {|
  world := state;
  Path_of := normal;
  view := observe;
  dirs := directory;
  mkdir_parents s d := mkdirs (length d) d s;
  write_bytes := write;
  os_remove := remove_node
|}.

(** [str.lower] on ASCII text. *)
Definition lower (s : pystr) : pystr :=
  map (fun c => if Text.between 65 c 90 then c + 32 else c) s.

Definition initial : state :=
  [ (str ".", NDir);
    (str "docs", NDir);
    (str "docs/b.txt", NFile (bytes "beta"));
    (str "docs/Zeta", NDir);
    (str "docs/.git", NDir);
    (str "docs/Readme.md", NFile (bytes "read me"));
    (str "docs/api", NDir);
    (str "docs/api/v1.md", NFile (bytes "v1"));
    (str "pipe", NOther) ].

End Disk.

(** * Properties *)

(** ** [rstrip] *)

(** [rstrip] removes a run of whitespace at the end, and only that. *)
Lemma rstrip_suffix (s : pystr) :
  exists ws, s = Text.rstrip s ++ ws /\ forallb Text.isspace ws = true.
Proof.
  induction s as [|c t [ws [Ht Hws]]]; simpl.
  - exists []; auto.
  - destruct (Text.rstrip t) as [|x t'] eqn:E.
    + simpl in Ht; subst ws.
      destruct (Text.isspace c) eqn:Hc.
      * exists (c :: t); simpl; rewrite Hc, Hws; auto.
      * exists t; auto.
    + exists ws; split; [|exact Hws].
      simpl; f_equal; exact Ht.
Qed.

(** What [rstrip] returns does not end in whitespace. *)
Lemma rstrip_last (s t : pystr) (c : Z) :
  Text.rstrip s = t ++ [c] -> Text.isspace c = false.
Proof.
  revert t; induction s as [|a s IH]; simpl; intros t H.
  - destruct t; discriminate.
  - destruct (Text.rstrip s) as [|x r] eqn:E.
    + destruct (Text.isspace a) eqn:Ha.
      * destruct t; discriminate.
      * destruct t as [|y t]; simpl in H.
        -- injection H as ->; exact Ha.
        -- injection H as _ H; destruct t; discriminate.
    + destruct t as [|y t]; simpl in H; [discriminate|].
      injection H as _ H. exact (IH t H).
Qed.

(** ** The candidate files *)

Section SearchFacts.

Context {R : Regex}.
Variable fs : FileSystem.

(** The comprehension asks [is_file] of the items and nothing else. *)
Lemma comprehension_no_read keep items : forall tr r,
  comprehension fs keep items = (tr, r) -> existsb is_read tr = false.
Proof.
  induction items as [|f rest IH]; simpl; intros tr r.
  - intros [= <- _]; reflexivity.
  - destruct (is_file fs f) as [exc|b]; [intros [= <- _]; reflexivity|].
    destruct (comprehension fs keep rest) as [tr' [e|files]];
      intros [= <- _]; simpl; exact (IH _ _ eq_refl).
Qed.

(** A comprehension that ends without raising asked every item and kept
    the regular files that pass the filter. *)
Lemma comprehension_returns keep items : forall tr files,
  comprehension fs keep items = (tr, inr files) ->
  tr = map EvIsFile items /\
  files = filter (fun f => regular fs f && keep f) items.
Proof.
  induction items as [|f rest IH]; simpl; intros tr files.
  - intros [= <- <-]; auto.
  - unfold regular at 1.
    destruct (is_file fs f) as [exc|b]; [discriminate|].
    destruct (comprehension fs keep rest) as [tr' [e|files']];
      [discriminate|].
    destruct (IH _ _ eq_refl) as [-> ->].
    intros [= <- <-]. split; [reflexivity|].
    destruct b; reflexivity.
Qed.


(** Looking for the candidates touches no file content. *)
Lemma files_to_search_no_read (req : SearchRequest) tr r :
  files_to_search fs req = (tr, r) -> existsb is_read tr = false.
Proof.
  unfold files_to_search.
  assert (W : forall keep tr r,
            (let '(tr0, r0) := comprehension fs keep (rglob fs (path req)) in
             (EvIsFile (path req) :: EvRglob (path req) :: tr0, r0))
            = (tr, r) -> existsb is_read tr = false).
  { intros keep tr' r'.
    destruct (comprehension fs keep (rglob fs (path req))) as [tr0 r0] eqn:C.
    intros [= <- _]. simpl. exact (comprehension_no_read _ _ _ _ C). }
  destruct (is_file fs (path req)) as [exc|[|]].
  - intros [= <- <-]; reflexivity.
  - intros [= <- <-]; reflexivity.
  - destruct (file_pattern req) as [fp|]; [|apply W].
    destruct (truthy fp); [|apply W].
    destruct (re_compile fp); [apply W| |]; intros [= <- <-]; reflexivity.
Qed.

(** The candidates, when they are found: the root alone when it is a
    regular file; otherwise the regular files that the walk lists and the
    filter, if any, keeps. *)
Lemma files_to_search_returns (req : SearchRequest) tr files :
  files_to_search fs req = (tr, inr files) ->
  (is_file fs (path req) = Returns true /\
   tr = [EvIsFile (path req)] /\ files = [path req])
  \/
  (is_file fs (path req) = Returns false /\
   tr = EvIsFile (path req) :: EvRglob (path req)
        :: map EvIsFile (rglob fs (path req)) /\
   exists keep,
     files = filter (fun f => regular fs f && keep f) (rglob fs (path req))
     /\
     match file_pattern req with
     | Some fp =>
         if truthy fp then
           exists file_glob,
             re_compile fp = Compiled file_glob /\ keep = re_search file_glob
         else keep = fun _ => true
     | None => keep = fun _ => true
     end).
Proof.
  unfold files_to_search.
  assert (W : forall keep,
            (let '(tr0, r0) := comprehension fs keep (rglob fs (path req)) in
             (EvIsFile (path req) :: EvRglob (path req) :: tr0, r0))
            = (tr, inr files) ->
            tr = EvIsFile (path req) :: EvRglob (path req)
                 :: map EvIsFile (rglob fs (path req)) /\
            files = filter (fun f => regular fs f && keep f)
                           (rglob fs (path req))).
  { intros keep.
    destruct (comprehension fs keep (rglob fs (path req))) as [tr0 r0] eqn:C.
    intros [= <- ->].
    destruct (comprehension_returns _ _ _ _ C) as [-> ->]. auto. }
  destruct (is_file fs (path req)) as [exc|[|]]; [discriminate| |].
  - intros [= <- <-]. left; auto.
  - intros Hr. right. split; [reflexivity|]. revert Hr.
    destruct (file_pattern req) as [fp|].
    + destruct (truthy fp).
      * destruct (re_compile fp) as [g| |exc]; try discriminate.
        intros Hw; apply W in Hw as [-> ->]. split; [reflexivity|].
        exists (re_search g). split; [reflexivity|]. exists g; auto.
      * intros Hw; apply W in Hw as [-> ->]. split; [reflexivity|].
        exists (fun _ => true); auto.
    + intros Hw; apply W in Hw as [-> ->]. split; [reflexivity|].
      exists (fun _ => true); auto.
Qed.


(** ** The two loops *)

Lemma len_app {A} (l : list A) (x : A) : len (l ++ [x]) = len l + 1.
Proof. unfold len; rewrite length_app; simpl; lia. Qed.

(** The inner loop adds the matches of the lines, up to the cap. *)
Lemma scan_lines_found pat fp cap lines : forall n s,
  len (found s) < cap ->
  found (scan_lines pat fp cap n lines s)
  = found s ++ firstn (Z.to_nat cap - length (found s))
                      (line_matches pat fp n lines).
Proof.
  induction lines as [|line rest IH]; intros n s Hlt; simpl.
  - rewrite firstn_nil, app_nil_r; reflexivity.
  - unfold len in Hlt.
    destruct (Z.to_nat cap - length (found s))%nat as [|k] eqn:Ek; [lia|].
    destruct (re_search pat line); simpl.
    + rewrite len_app.
      destruct (len (found s) + 1 >=? cap) eqn:Hc; simpl.
      * assert (k = 0%nat) by (unfold len in Hc; lia); subst k.
        reflexivity.
      * rewrite IH by (simpl; rewrite len_app; lia).
        simpl; rewrite length_app; simpl.
        replace (Z.to_nat cap - (length (found s) + 1))%nat with k by lia.
        rewrite <- app_assoc; reflexivity.
    + rewrite IH by (simpl; unfold len; lia).
      simpl; rewrite Ek; reflexivity.
Qed.

(** Once the cap is reached the outer loop does nothing more. *)
Lemma scan_files_capped pat cap files s :
  len (found s) >= cap -> scan_files fs pat cap files s = s.
Proof.
  intros H; destruct files; simpl; [reflexivity|].
  destruct (len (found s) >=? cap) eqn:E; [reflexivity|lia].
Qed.

(** The outer loop adds the matches of the files, up to the cap. *)
Lemma scan_files_found pat cap files : forall s,
  found (scan_files fs pat cap files s)
  = found s ++ firstn (Z.to_nat cap - length (found s))
                      (all_matches fs pat files).
Proof.
  induction files as [|fp rest IH]; intros s; simpl.
  - rewrite firstn_nil, app_nil_r; reflexivity.
  - destruct (len (found s) >=? cap) eqn:Hc.
    + replace (Z.to_nat cap - length (found s))%nat with 0%nat
        by (unfold len in Hc; lia).
      rewrite app_nil_r; reflexivity.
    + unfold file_matches.
      destruct (delivered (open_ fs fp)) as [lines|].
      * rewrite IH, scan_lines_found by (simpl; lia).
        simpl found.
        rewrite firstn_app, <- app_assoc. do 2 f_equal.
        rewrite length_app, length_firstn. f_equal. lia.
      * rewrite IH; reflexivity.
Qed.

(** When the lines hold enough matches to reach the cap, the inner loop
    stops on the read that gave the last of them. *)
Lemma scan_lines_stop pat fp cap lines : forall n s,
  len (found s) < cap ->
  cap <= len (found s) + len (line_matches pat fp n lines) ->
  let s' := scan_lines pat fp cap n lines s in
  ends_on_last_match (trace s') (found s') /\ len (found s') >= cap.
Proof.
  induction lines as [|line rest IH]; intros n s Hlt Hge; simpl in *.
  - unfold len in *; simpl in *; lia.
  - destruct (re_search pat line); simpl in *.
    + rewrite len_app.
      destruct (len (found s) + 1 >=? cap) eqn:Hc; simpl.
      * split; [|rewrite len_app; lia].
        exists (trace s), (found s), (match_of fp n line); auto.
      * apply IH; simpl; rewrite len_app; [lia|].
        unfold len in *; simpl in Hge; lia.
    + apply IH; simpl; assumption.
Qed.

Lemma len_firstn_all {A} (k : nat) (l : list A) :
  (length l <= k)%nat -> firstn k l = l.
Proof. intros; apply firstn_all2; assumption. Qed.

(** The same for the outer loop over the candidates. *)
Lemma scan_files_stop pat cap files : forall s,
  len (found s) < cap ->
  cap <= len (found s) + len (all_matches fs pat files) ->
  let s' := scan_files fs pat cap files s in
  ends_on_last_match (trace s') (found s') /\ len (found s') >= cap.
Proof.
  induction files as [|fp rest IH]; intros s Hlt Hge; simpl in *.
  - unfold len in *; simpl in *; lia.
  - destruct (len (found s) >=? cap) eqn:Hc; [lia|].
    unfold len in Hge; rewrite length_app in Hge.
    unfold file_matches in Hge.
    destruct (delivered (open_ fs fp)) as [lines|].
    + set (s1 := log (EvOpen fp) s).
      destruct (Z_lt_ge_dec
                  (len (found s1) + len (line_matches pat fp 1 lines)) cap)
        as [Hfew|Hmany].
      * assert (F : found (scan_lines pat fp cap 1 lines s1)
                    = found s ++ line_matches pat fp 1 lines).
        { rewrite scan_lines_found by exact Hlt. simpl. f_equal.
          apply len_firstn_all. unfold len in *; simpl in *; lia. }
        apply IH; rewrite F; unfold len in *; simpl in *;
          rewrite length_app; lia.
      * destruct (scan_lines_stop pat fp cap lines 1 s1 Hlt) as [He Hl];
          [lia|].
        rewrite scan_files_capped by exact Hl. split; assumption.
    + apply IH; simpl; [assumption|]. unfold len in *; simpl in *; lia.
Qed.

(** ** What a match says about its file *)

Lemma line_matches_spec pat fp lines : forall n m,
  In m (line_matches pat fp n lines) ->
  file_path m = fp /\ n <= line_number m /\
  exists line,
    nth_error lines (Z.to_nat (line_number m - n)) = Some line /\
    re_search pat line = true /\
    line_content m = Text.rstrip line.
Proof.
  induction lines as [|line rest IH]; intros n m Hin; simpl in Hin.
  - contradiction.
  - apply in_app_or in Hin as [Hin|Hin].
    + destruct (re_search pat line) eqn:Hs; [|contradiction].
      destruct Hin as [<-|[]]; simpl.
      repeat split; [lia|]. exists line.
      replace (n - n) with 0 by lia. auto.
    + destruct (IH _ _ Hin) as (Hp & Hn & l & Hnth & Hs & Hc).
      repeat split; [assumption|lia|]. exists l.
      replace (Z.to_nat (line_number m - n))
        with (S (Z.to_nat (line_number m - (n + 1)))) by lia.
      auto.
Qed.

Lemma In_firstn {A} (k : nat) (l : list A) (x : A) :
  In x (firstn k l) -> In x l.
Proof.
  intros H. rewrite <- (firstn_skipn k l). apply in_or_app; left; exact H.
Qed.

(** A match comes from a line of a candidate. *)
Lemma all_matches_spec pat files m :
  In m (all_matches fs pat files) ->
  In (file_path m) files /\ 1 <= line_number m /\
  exists lines line,
    delivered (open_ fs (file_path m)) = Some lines /\
    nth_error lines (Z.to_nat (line_number m - 1)) = Some line /\
    re_search pat line = true /\
    line_content m = Text.rstrip line.
Proof.
  unfold all_matches; rewrite in_flat_map.
  intros (fp & Hfp & Hin). unfold file_matches in Hin.
  destruct (delivered (open_ fs fp)) as [lines|] eqn:D; [|contradiction].
  destruct (line_matches_spec _ _ _ _ _ Hin) as (-> & Hn & line & H).
  repeat split; try assumption. exists lines, line. auto.
Qed.


(** ** How [search_files] ends *)

(** A search that returns a response found the root, compiled the pattern,
    got its candidates and ran the loops from the empty list. *)
Lemma search_files_returns req tr resp :
  search_files fs req = (tr, inr resp) ->
  exists pat tr0 files,
    exists_ fs (path req) = Returns true /\
    re_compile (pattern req) = Compiled pat /\
    files_to_search fs req = (tr0, inr files) /\
    let s := scan_files fs pat (max_results req) files
               {| found := []; trace := EvExists (path req) :: tr0 |} in
    tr = trace s /\ matches resp = found s /\
    total_matches resp = len (found s) /\ resp_pattern resp = pattern req.
Proof.
  unfold search_files.
  destruct (exists_ fs (path req)) as [exc|[|]]; simpl; try discriminate.
  destruct (re_compile (pattern req)) as [pat| |exc]; try discriminate.
  destruct (files_to_search fs req) as [tr0 [e|files]]; [discriminate|].
  intros [= <- <-]. exists pat, tr0, files. simpl. auto 10.
Qed.

(** Conversely, with the root there and the patterns compiled, the search
    returns a response, whatever the files hold. *)
Lemma search_files_total req pat tr0 files :
  exists_ fs (path req) = Returns true ->
  re_compile (pattern req) = Compiled pat ->
  files_to_search fs req = (tr0, inr files) ->
  let s := scan_files fs pat (max_results req) files
             {| found := []; trace := EvExists (path req) :: tr0 |} in
  search_files fs req
  = (trace s, inr {| resp_pattern := pattern req; matches := found s;
                     total_matches := len (found s) |}).
Proof.
  intros He Hp Hf. unfold search_files. rewrite He, Hp, Hf. reflexivity.
Qed.

End SearchFacts.

(** ** The cap on the number of matches *)

Section Cap.

Context {R : Regex}.
Variable fs : FileSystem.

(** C1 (amended).  For every search with [max_results >= 0] that returns a
    response: the matches are at most [max_results]; they are exactly the
    first [max_results] of all the matches of the candidates, taken in
    traversal order and, within a file, in line order; and when the
    candidates hold at least [max_results] matches, the last operation on
    the file system is the read of the line that gave the last match
    returned (with [max_results = 0], no file is opened or read at all):
    both loops stop there. *)
Theorem search_cap_prefix (req : SearchRequest) tr resp :
  0 <= max_results req ->
  search_files fs req = (tr, inr resp) ->
  exists pat tr0 files,
    re_compile (pattern req) = Compiled pat /\
    files_to_search fs req = (tr0, inr files) /\
    len (matches resp) <= max_results req /\
    matches resp
    = firstn (Z.to_nat (max_results req)) (all_matches fs pat files) /\
    (0 < max_results req <= len (all_matches fs pat files) ->
     ends_on_last_match tr (matches resp)) /\
    (max_results req = 0 -> existsb is_read tr = false).
Proof.
  intros Hcap H.
  destruct (search_files_returns fs _ _ _ H)
    as (pat & tr0 & files & _ & Hp & Hf & Htr & Hm & _).
  exists pat, tr0, files.
  assert (E : matches resp
              = firstn (Z.to_nat (max_results req))
                       (all_matches fs pat files)).
  { rewrite Hm, scan_files_found; simpl. f_equal. lia. }
  repeat split; try assumption.
  - rewrite E. unfold len. rewrite length_firstn. lia.
  - intros [Hpos Hmany]. rewrite Htr, Hm.
    apply scan_files_stop; simpl; unfold len in *; simpl; lia.
  - intros H0. rewrite Htr, scan_files_capped by (simpl; unfold len; simpl; lia).
    simpl. exact (files_to_search_no_read fs _ _ _ Hf).
Qed.


End Cap.

(** ** Patterns, candidates and matches *)

Section Searching.

Context {R : Regex}.
Variable fs : FileSystem.

(** C3 (amended).  For every search whose root exists: when the content
    pattern does not compile, the search ends with the [re.error] of that
    pattern, having only checked that the root exists; when the content
    pattern compiles, the root is not a regular file and [file_pattern] is
    a non-empty string that does not compile, the search ends with the
    [re.error] of [file_pattern], having only checked the root.  In both
    cases nothing is walked, opened or read. *)
Theorem invalid_pattern_fails (req : SearchRequest) :
  exists_ fs (path req) = Returns true ->
  (re_compile (pattern req) = ReError ->
   search_files fs req
   = ([EvExists (path req)], inl (re_error (pattern req))))
  /\
  (forall pat fp,
     re_compile (pattern req) = Compiled pat ->
     is_file fs (path req) = Returns false ->
     file_pattern req = Some fp -> truthy fp = true ->
     re_compile fp = ReError ->
     search_files fs req
     = ([EvExists (path req); EvIsFile (path req)], inl (re_error fp))).
Proof.
  intros He; split.
  - intros Hp. unfold search_files. rewrite He, Hp. reflexivity.
  - intros pat fp Hp Hf Hfp Ht Hc.
    unfold search_files, files_to_search.
    rewrite He, Hp, Hf, Hfp, Ht, Hc. reflexivity.
Qed.


(** C5 (amended).  For every search whose root is not a regular file and
    that returns a response: when [file_pattern] is a non-empty string, it
    compiled and the path of every match returned satisfies it, searched
    anywhere in the path string; when [file_pattern] is omitted or empty,
    the candidates are all the regular files under the root. *)
Theorem path_filter_applied (req : SearchRequest) tr resp :
  is_file fs (path req) = Returns false ->
  search_files fs req = (tr, inr resp) ->
  (forall fp,
     file_pattern req = Some fp -> truthy fp = true ->
     exists file_glob,
       re_compile fp = Compiled file_glob /\
       forall m, In m (matches resp) ->
                 re_search file_glob (file_path m) = true)
  /\
  (file_pattern req = None \/ file_pattern req = Some [] ->
   snd (files_to_search fs req)
   = inr (filter (regular fs) (rglob fs (path req)))).
Proof.
  intros Hnf H.
  destruct (search_files_returns fs _ _ _ H)
    as (pat & tr0 & files & _ & _ & Hf & _ & Hm & _).
  split.
  - intros fp Hfp Ht. unfold files_to_search in Hf.
    rewrite Hnf, Hfp, Ht in Hf.
    destruct (re_compile fp) as [g| |exc]; try discriminate.
    destruct (comprehension fs (re_search g) (rglob fs (path req)))
      as [tr1 [e|fl]] eqn:C; [discriminate|].
    injection Hf as _ <-. exists g; split; [reflexivity|].
    apply comprehension_returns in C as [_ ->].
    intros m Hin. rewrite Hm, scan_files_found in Hin. simpl in Hin.
    apply In_firstn, (all_matches_spec fs) in Hin as [Hin _].
    apply filter_In in Hin as [_ Hin].
    apply andb_true_iff in Hin as [_ Hin]. exact Hin.
  - intros Hfp. rewrite Hf. simpl.
    destruct (files_to_search_returns fs _ _ _ Hf)
      as [[Hr _]|(_ & _ & keep & -> & Hk)]; [congruence|].
    f_equal. apply filter_ext. intros f.
    destruct Hfp as [Hfp|Hfp]; rewrite Hfp in Hk; simpl in Hk;
      rewrite Hk; apply andb_true_r.
Qed.

(** C7 (amended).  For every match returned by a search: [line_number] is
    at least 1 and is the 1-based index, among the lines delivered by the
    file at [file_path], of a line that the content pattern matches; and
    [line_content] is that line with all its trailing whitespace removed,
    the line terminator included: the line is [line_content] followed by
    whitespace only, and [line_content] does not end in whitespace. *)
Theorem match_line (req : SearchRequest) tr resp m :
  search_files fs req = (tr, inr resp) ->
  In m (matches resp) ->
  1 <= line_number m /\
  exists pat lines line ws,
    re_compile (pattern req) = Compiled pat /\
    delivered (open_ fs (file_path m)) = Some lines /\
    nth_error lines (Z.to_nat (line_number m - 1)) = Some line /\
    re_search pat line = true /\
    line = line_content m ++ ws /\
    forallb Text.isspace ws = true /\
    (forall t c, line_content m = t ++ [c] -> Text.isspace c = false).
Proof.
  intros H Hin.
  destruct (search_files_returns fs _ _ _ H)
    as (pat & tr0 & files & _ & Hp & _ & _ & Hm & _).
  rewrite Hm, scan_files_found in Hin. simpl in Hin.
  apply In_firstn, (all_matches_spec fs) in Hin
    as (_ & Hn & lines & line & Hd & Hnth & Hs & Hc).
  split; [exact Hn|].
  destruct (rstrip_suffix line) as (ws & Hl & Hws).
  exists pat, lines, line, ws. rewrite Hc.
  repeat split; try assumption.
  intros t c. apply rstrip_last.
Qed.

(** C10.  For every search whose root is an existing regular file: the
    candidates are that file alone, found without compiling
    [file_pattern]; the search does the same and returns the same whatever
    [file_pattern] is, one that does not compile or does not match the
    path included; and when the content pattern compiles, the matches of
    the file are returned, up to the cap. *)
Theorem file_root_ignores_filter (req : SearchRequest) :
  exists_ fs (path req) = Returns true ->
  is_file fs (path req) = Returns true ->
  files_to_search fs req = ([EvIsFile (path req)], inr [path req])
  /\ (forall fp, search_files fs (with_file_pattern fp req)
                 = search_files fs req)
  /\ (forall pat,
        re_compile (pattern req) = Compiled pat ->
        exists tr resp,
          search_files fs req = (tr, inr resp) /\
          matches resp
          = firstn (Z.to_nat (max_results req))
                   (file_matches fs pat (path req))).
Proof.
  intros He Hf.
  assert (F : files_to_search fs req
              = ([EvIsFile (path req)], inr [path req]))
    by (unfold files_to_search; rewrite Hf; reflexivity).
  split; [exact F|split].
  - intros fp. unfold search_files, files_to_search. simpl. rewrite Hf.
    reflexivity.
  - intros pat Hp.
    rewrite (search_files_total fs req pat _ _ He Hp F).
    do 2 eexists; split; [reflexivity|].
    cbn [matches]. rewrite scan_files_found. simpl. rewrite app_nil_r.
    f_equal; lia.
Qed.

End Searching.

(** ** Command execution *)

Section Executing.

Variable subprocess_run : pystr -> pystr -> Z -> run_outcome.
Variable resolved_dot : pystr.

(** X1.  When [subprocess.run], called with the timeout of the request,
    raises [TimeoutExpired], [exec_command] raises the HTTP error 408 and returns
    no response. *)
Theorem exec_timeout (req : ExecRequest) :
  subprocess_run (command req) (exec_cwd resolved_dot req)
                 (timeout_seconds req) = TimeoutExpired ->
  exec_command subprocess_run resolved_dot req = inl (HTTPException 408)
  /\ forall r, exec_command subprocess_run resolved_dot req <> inr r.
Proof.
  unfold exec_command. intros ->. split; [reflexivity|discriminate].
Qed.

(** C8 (amended).  For every call: a working directory that is supplied
    and not empty is handed to [subprocess.run] as it is, and is not
    resolved; when none is supplied, or the empty string is, the
    directory handed over is the resolved current directory of the process
    at the time of the call.  The outcome of [exec_command] depends on
    [subprocess.run] through that one call only. *)
Theorem exec_working_directory (req : ExecRequest) :
  (forall c, cwd req = Some c -> truthy c = true ->
             exec_cwd resolved_dot req = c)
  /\ (cwd req = None \/ cwd req = Some [] ->
      exec_cwd resolved_dot req = resolved_dot)
  /\ (forall run',
        run' (command req) (exec_cwd resolved_dot req) (timeout_seconds req)
        = subprocess_run (command req) (exec_cwd resolved_dot req)
                         (timeout_seconds req) ->
        exec_command run' resolved_dot req
        = exec_command subprocess_run resolved_dot req).
Proof.
  repeat split.
  - unfold exec_cwd. intros c -> ->. reflexivity.
  - unfold exec_cwd. intros [-> | ->]; reflexivity.
  - intros run' H. unfold exec_command. rewrite H. reflexivity.
Qed.

End Executing.

Section Running.

Variable spawn : pystr -> pystr -> pystr + Subprocess.process.
Variable decode : list byte -> option pystr.
Variable resolved_dot : pystr.


End Running.

(** ** The model on concrete requests

    The requests below are run against [Demo.fs] with the engine
    [Demo.literal_re], and against the shell [Demo.run]. *)

(** Two matches are asked for among the four of [proj]: the search stops
    on the third line of [proj/a.txt]. *)
Lemma search_cap_prefix_witness :
  exists tr resp,
    search_files (R := Demo.literal_re) Demo.fs
      (Demo.request "foo" "proj" None 2) = (tr, inr resp) /\
    len (matches resp) <= 2 /\ ends_on_last_match tr (matches resp).
Proof.
  do 2 eexists. split; [reflexivity|].
  destruct (search_cap_prefix (R := Demo.literal_re) Demo.fs
              (Demo.request "foo" "proj" None 2) _ _
              ltac:(simpl; lia) eq_refl)
    as (pat & tr0 & files & Hp & Hf & Hlen & _ & Hstop & _).
  split; [exact Hlen|]. apply Hstop.
  vm_compute in Hp. injection Hp as <-.
  vm_compute in Hf. injection Hf as <- <-.
  vm_compute. split; [reflexivity|discriminate].
Defined.

(** C1 as stated fails for a negative cap: asked for at most -1 matches,
    the search returns the empty list, whose length 0 is not at most -1. *)
Lemma search_cap_negative :
  exists tr resp,
    search_files (R := Demo.literal_re) Demo.fs
      (Demo.request "foo" "proj" None (-1)) = (tr, inr resp) /\
    ~ len (matches resp) <= -1.
Proof.
  do 2 eexists. split; [reflexivity|]. vm_compute. intros H; apply H.
  reflexivity.
Defined.



Lemma invalid_pattern_fails_witness :
  search_files (R := Demo.literal_re) Demo.fs
    (Demo.request "(" "proj" None 100)
  = ([EvExists (str "proj")], inl (re_error (str "(")))
  /\
  search_files (R := Demo.literal_re) Demo.fs
    (Demo.request "foo" "proj" (Some "("%string) 100)
  = ([EvExists (str "proj"); EvIsFile (str "proj")],
     inl (re_error (str "("))).
Proof.
  split.
  - apply (invalid_pattern_fails (R := Demo.literal_re) Demo.fs
             (Demo.request "(" "proj" None 100) eq_refl).
    reflexivity.
  - apply (proj2 (invalid_pattern_fails (R := Demo.literal_re) Demo.fs
                    (Demo.request "foo" "proj" (Some "("%string) 100)
                    eq_refl)
             (str "foo") (str "(")); reflexivity.
Defined.

(** C3 as stated fails twice.  With a root that does not exist, a pattern
    that does not compile gives the HTTP error 404, not the pattern's
    error, and the existence check came first.  With a regular file as
    root, a [file_pattern] that does not compile gives no error at all. *)
Lemma invalid_pattern_not_reported :
  re_compile (Regex := Demo.literal_re) (str "(") = ReError /\
  search_files (R := Demo.literal_re) Demo.fs
    (Demo.request "(" "nowhere" None 100)
  = ([EvExists (str "nowhere")], inl (HTTPException 404)) /\
  exists tr resp,
    search_files (R := Demo.literal_re) Demo.fs
      (Demo.request "foo" "proj/a.txt" (Some "("%string) 100)
    = (tr, inr resp).
Proof.
  split; [reflexivity|]. split; [reflexivity|].
  do 2 eexists. reflexivity.
Qed.



Lemma path_filter_applied_witness :
  exists tr resp,
    search_files (R := Demo.literal_re) Demo.fs
      (Demo.request "foo" "proj" (Some "sub"%string) 100) = (tr, inr resp) /\
    forall m, In m (matches resp) ->
              Demo.contains (str "sub") (file_path m) = true.
Proof.
  do 2 eexists. split; [reflexivity|].
  destruct (proj1 (path_filter_applied (R := Demo.literal_re) Demo.fs
                     (Demo.request "foo" "proj" (Some "sub"%string) 100)
                     _ _ eq_refl eq_refl)
              (str "sub") eq_refl eq_refl)
    as (g & Hg & H).
  vm_compute in Hg. injection Hg as <-. exact H.
Defined.

(** C5 as stated fails when the root is a regular file: the filter "zzz"
    is not found in "proj/a.txt", and the matches of that file are
    returned all the same. *)
Lemma path_filter_skipped_for_file_root :
  exists g tr resp m,
    re_compile (Regex := Demo.literal_re) (str "zzz") = Compiled g /\
    search_files (R := Demo.literal_re) Demo.fs
      (Demo.request "foo" "proj/a.txt" (Some "zzz"%string) 100)
    = (tr, inr resp) /\
    In m (matches resp) /\
    re_search g (file_path m) = false.
Proof.
  do 4 eexists. split; [reflexivity|]. split; [reflexivity|].
  split; [left; reflexivity|reflexivity].
Qed.

Lemma match_line_witness :
  exists line ws,
    nth_error (Text.readlines (bytes "foo  
bar
foo bar
")) 0 = Some line /\
    line = str "foo" ++ ws /\ forallb Text.isspace ws = true.
Proof.
  destruct (match_line (R := Demo.literal_re) Demo.fs
              (Demo.request "foo" "proj" None 100) _ _
              (match_of (str "proj/a.txt") 1 (str "foo"))
              eq_refl (or_introl eq_refl))
    as (_ & pat & lines & line & ws & _ & Hd & Hn & _ & Hl & Hws & _).
  vm_compute in Hd. injection Hd as <-.
  exists line, ws. split; [exact Hn|]. split; [exact Hl|exact Hws].
Defined.

(** C7 as stated fails for a line that ends in blanks: the first line of
    [proj/a.txt] is "foo", two spaces and a line feed; without its line
    feed it is "foo" and two spaces, and [line_content] is "foo". *)
Lemma line_content_loses_whitespace :
  exists lines line tr resp m,
    delivered (open_ Demo.fs (str "proj/a.txt")) = Some lines /\
    nth_error lines 0 = Some line /\
    search_files (R := Demo.literal_re) Demo.fs
      (Demo.request "foo" "proj" None 100) = (tr, inr resp) /\
    In m (matches resp) /\
    file_path m = str "proj/a.txt" /\ line_number m = 1 /\
    Text.strip_newline line = str "foo  " /\
    line_content m <> Text.strip_newline line.
Proof.
  do 5 eexists. split; [reflexivity|]. split; [reflexivity|].
  split; [reflexivity|]. split; [left; reflexivity|].
  repeat split. discriminate.
Qed.

Lemma file_root_ignores_filter_witness :
  search_files (R := Demo.literal_re) Demo.fs
    (Demo.request "foo" "proj/a.txt" (Some "("%string) 100)
  = search_files (R := Demo.literal_re) Demo.fs
      (Demo.request "foo" "proj/a.txt" None 100).
Proof.
  apply (proj1 (proj2 (file_root_ignores_filter (R := Demo.literal_re)
                         Demo.fs (Demo.request "foo" "proj/a.txt" None 100)
                         eq_refl eq_refl))
           (Some (str "("))).
Defined.

Lemma exec_timeout_witness :
  exec_command Demo.run Demo.resolved_dot
    {| command := str "sleep 10"; cwd := None; timeout_seconds := 5 |}
  = inl (HTTPException 408).
Proof.
  apply (exec_timeout Demo.run Demo.resolved_dot
           {| command := str "sleep 10"; cwd := None;
              timeout_seconds := 5 |} eq_refl).
Defined.



(** C8 as stated fails for a relative working directory: "sub" is handed
    to [subprocess.run] as it is, and it is not an absolute path. *)
Lemma relative_cwd_not_resolved :
  exec_cwd Demo.resolved_dot
    {| command := str "exit 3"; cwd := Some (str "sub");
       timeout_seconds := 120 |} = str "sub"
  /\ is_absolute (str "sub") = false
  /\ is_absolute Demo.resolved_dot = true.
Proof. repeat split. Qed.

(** * Directory listing *)


(** ** Comparison of strings *)

Lemma pystr_compare_refl (a : pystr) : pystr_compare a a = Eq.
Proof.
  induction a as [|x a IH]; simpl; [reflexivity|].
  rewrite Z.compare_refl; exact IH.
Qed.

Lemma pystr_compare_antisym (a : pystr) : forall b,
  pystr_compare b a = CompOpp (pystr_compare a b).
Proof.
  induction a as [|x a IH]; intros [|y b]; simpl; try reflexivity.
  rewrite (Z.compare_antisym x y).
  destruct (x ?= y); simpl; auto.
Qed.

(** The order on strings is transitive, stated on "not smaller". *)
Lemma pystr_lt_false_trans (a : pystr) : forall b c,
  pystr_lt b a = false -> pystr_lt c b = false -> pystr_lt c a = false.
Proof.
  unfold pystr_lt.
  induction a as [|x a IH]; intros [|y b] [|z c]; simpl; try congruence.
  destruct (Z.compare_spec y x), (Z.compare_spec z y), (Z.compare_spec z x);
    subst; try congruence; try lia.
  apply IH.
Qed.

Lemma key_lt_asym (k1 k2 : bool * pystr) :
  key_lt k1 k2 = true -> key_lt k2 k1 = false.
Proof.
  unfold key_lt, pystr_lt. destruct k1 as [[] s1], k2 as [[] s2]; simpl;
    try congruence;
    rewrite (pystr_compare_antisym s1 s2);
    destruct (pystr_compare s1 s2); simpl; congruence.
Qed.

Lemma key_lt_false_trans (k1 k2 k3 : bool * pystr) :
  key_lt k2 k1 = false -> key_lt k3 k2 = false -> key_lt k3 k1 = false.
Proof.
  unfold key_lt. destruct k1 as [[] s1], k2 as [[] s2], k3 as [[] s3]; simpl;
    try congruence; apply pystr_lt_false_trans.
Qed.

Lemma key_lt_irrefl (k : bool * pystr) : key_lt k k = false.
Proof.
  unfold key_lt, pystr_lt. destruct k as [[] s]; simpl;
    rewrite pystr_compare_refl; reflexivity.
Qed.

(** ** Sorting by a key *)

Section SortFacts.

Variables (A K : Type) (key : A -> K) (lt : K -> K -> bool).

Hypothesis lt_asym : forall a b, lt a b = true -> lt b a = false.
Hypothesis lt_false_trans :
  forall a b c, lt b a = false -> lt c b = false -> lt c a = false.

(** [a] may stand before [b]. *)
Let le (a b : A) : Prop := lt (key b) (key a) = false.

Lemma insert_perm (x : A) (l : list A) :
  Permutation (insert key lt x l) (x :: l).
Proof.
  induction l as [|y l IH]; simpl; [reflexivity|].
  destruct (lt (key y) (key x)); [|reflexivity].
  rewrite IH. apply perm_swap.
Qed.

Lemma sort_by_perm (l : list A) : Permutation (sort_by key lt l) l.
Proof.
  induction l as [|x l IH]; simpl; [reflexivity|].
  rewrite insert_perm, IH; reflexivity.
Qed.

Lemma insert_sorted (x : A) (l : list A) :
  StronglySorted le l -> StronglySorted le (insert key lt x l).
Proof.
  induction 1 as [|y l Hs IH Hy]; simpl.
  - constructor; constructor.
  - destruct (lt (key y) (key x)) eqn:E.
    + constructor; [exact IH|].
      rewrite insert_perm. constructor; [|exact Hy].
      apply lt_asym; exact E.
    + constructor; [constructor; assumption|].
      constructor; [exact E|].
      rewrite Forall_forall in *. intros z Hz.
      apply (lt_false_trans _ (key y)); [exact E|exact (Hy z Hz)].
Qed.

Lemma sort_by_sorted (l : list A) : StronglySorted le (sort_by key lt l).
Proof.
  induction l as [|x l IH]; simpl; [constructor|].
  apply insert_sorted; exact IH.
Qed.

(** Elements none of which is smaller than another keep their order. *)
Lemma sort_by_stable (P : A -> bool) (l : list A) :
  (forall a b, P a = true -> P b = true -> lt (key a) (key b) = false) ->
  filter P (sort_by key lt l) = filter P l.
Proof.
  intros HP.
  assert (I : forall x l, filter P (insert key lt x l) = filter P (x :: l)).
  { intros x; induction l0 as [|y l0 IH]; simpl; [reflexivity|].
    destruct (lt (key y) (key x)) eqn:E; [|reflexivity].
    simpl. rewrite IH. simpl.
    destruct (P x) eqn:Px, (P y) eqn:Py; try reflexivity.
    rewrite (HP y x Py Px) in E; discriminate. }
  induction l as [|x l IH]; simpl; [reflexivity|].
  rewrite I; simpl. rewrite IH; reflexivity.
Qed.

End SortFacts.

Lemma StronglySorted_weaken {A} (R S : A -> A -> Prop) (l : list A) :
  (forall a b, R a b -> S a b) -> StronglySorted R l -> StronglySorted S l.
Proof.
  intros RS; induction 1 as [|x l Hs IH Hx]; constructor; [exact IH|].
  rewrite Forall_forall in *; auto.
Qed.

Lemma Forall2_In_r {A B} (R : A -> B -> Prop) (l : list A) (l' : list B)
    (y : B) :
  Forall2 R l l' -> In y l' -> exists x, In x l /\ R x y.
Proof.
  induction 1 as [|a b l l' Hab _ IH]; [intros []|].
  intros [<-|Hin].
  - exists a; simpl; auto.
  - destruct (IH Hin) as (x & Hx & Hr). exists x; simpl; auto.
Qed.

Lemma Forall2_cons_l {A B} (R : A -> B -> Prop) (a : A) (l : list A)
    (l' : list B) :
  Forall2 R (a :: l) l' ->
  exists b t, l' = b :: t /\ R a b /\ Forall2 R l t.
Proof. intros H; inversion H; subst; eauto. Qed.

Lemma Forall2_nil_l {A B} (R : A -> B -> Prop) (l' : list B) :
  Forall2 R [] l' -> l' = [].
Proof. intros H; inversion H; reflexivity. Qed.

(** ** [list_directory] *)

Section ListDirectory.

Context {W : World}.
Variable lower : pystr -> pystr.

(** The loop over the items gives one entry for each item that is not
    left out, in order. *)
Lemma collect_returns (w : world) (h : bool) (items : list Path) :
  forall infos,
    collect w h items = Returns infos ->
    Forall2 (fun item info => file_info w item = Returns info)
            (filter (listed h) items) infos.
Proof.
  induction items as [|item rest IH]; simpl; intros infos.
  - intros [= <-]. constructor.
  - destruct (listed h item); [|apply IH].
    destruct (file_info w item) as [exc|info] eqn:E; [discriminate|].
    destruct (collect w h rest) as [exc|infos']; [discriminate|].
    intros [= <-]. constructor; [exact E|apply IH; reflexivity].
Qed.

(** What an entry holds. *)
Lemma file_info_returns (w : world) (item : Path) (info : FileInfo.t) :
  file_info w item = Returns info ->
  FileInfo.name info = basename item /\
  FileInfo.path info = item /\
  is_file (view w) item = Returns (FileInfo.is_file info) /\
  is_dir (dirs w) item = Returns (FileInfo.is_dir info) /\
  FileInfo.size info
  = if FileInfo.is_file info then Some (st_size (dirs w) item) else None.
Proof.
  unfold file_info.
  destruct (is_file (view w) item) as [exc|f]; [discriminate|].
  destruct (is_dir (dirs w) item) as [exc|d]; [discriminate|].
  intros [= <-]. simpl. auto.
Qed.

(** A listing that is returned went through the two checks, the iteration
    and the sort. *)
Lemma list_directory_returns (w : world) (req : ListDirRequest.t) resp :
  list_directory lower w req = inr resp ->
  exists items infos,
    exists_ (view w) (Path_of (ListDirRequest.path req)) = Returns true /\
    is_dir (dirs w) (Path_of (ListDirRequest.path req)) = Returns true /\
    iterdir (dirs w) (Path_of (ListDirRequest.path req)) = Returns items /\
    collect w (ListDirRequest.include_hidden req) items = Returns infos /\
    resp = {| ListDirResponse.path := Path_of (ListDirRequest.path req);
              ListDirResponse.files :=
                sort_by (sort_key lower) key_lt infos |}.
Proof.
  unfold list_directory.
  destruct (exists_ (view w) (Path_of (ListDirRequest.path req)))
    as [exc|[|]]; try discriminate.
  destruct (is_dir (dirs w) (Path_of (ListDirRequest.path req)))
    as [exc|[|]]; try discriminate.
  destruct (iterdir (dirs w) (Path_of (ListDirRequest.path req)))
    as [exc|items]; [discriminate|].
  destruct (collect w (ListDirRequest.include_hidden req) items)
    as [exc|infos] eqn:C; [discriminate|].
  intros [= <-]. exists items, infos. auto 10.
Qed.

(** X20.  The listing fails with 404 exactly when the path does not exist and
    with 400 exactly when it exists and is not a directory; it makes no
    other HTTP error. *)
Theorem list_directory_status (w : world) (req : ListDirRequest.t) c :
  list_directory lower w req = inl (HTTPException c) <->
  (c = 404 /\
   exists_ (view w) (Path_of (ListDirRequest.path req)) = Returns false) \/
  (c = 400 /\
   exists_ (view w) (Path_of (ListDirRequest.path req)) = Returns true /\
   is_dir (dirs w) (Path_of (ListDirRequest.path req)) = Returns false).
Proof.
  unfold list_directory.
  destruct (exists_ (view w) (Path_of (ListDirRequest.path req)))
    as [exc|[|]].
  - split; [discriminate|].
    intros [[_ H]|(_ & H & _)]; discriminate.
  - destruct (is_dir (dirs w) (Path_of (ListDirRequest.path req)))
      as [exc|[|]].
    + split; [discriminate|].
      intros [[_ H]|(_ & _ & H)]; discriminate.
    + destruct (iterdir (dirs w) (Path_of (ListDirRequest.path req)))
        as [exc|items].
      * split; [discriminate|].
        intros [[_ H]|(_ & _ & H)]; discriminate.
      * destruct (collect w (ListDirRequest.include_hidden req) items);
          (split; [discriminate|]);
          intros [[_ H]|(_ & _ & H)]; discriminate.
    + split.
      * intros [= <-]; right; auto.
      * intros [[_ H]|[-> _]]; [discriminate|reflexivity].
  - split.
    + intros [= <-]; left; auto.
    + intros [[-> _]|(_ & H & _)]; [reflexivity|discriminate].
Qed.

(** X21.  A listing that is returned carries the path of the request in
    the normal form of [pathlib], and its entries are, up to their order,
    one for each item that the iteration over the directory gives and that
    is not left out as hidden, and nothing else; the entry of an item
    holds its last component as name, its path string, what [is_file] and
    [is_dir] return for it, and its size when it is a regular file, no
    size otherwise. *)
Theorem list_directory_entries (w : world) (req : ListDirRequest.t) resp :
  list_directory lower w req = inr resp ->
  exists items infos,
    iterdir (dirs w) (Path_of (ListDirRequest.path req)) = Returns items /\
    ListDirResponse.path resp = Path_of (ListDirRequest.path req) /\
    Permutation (ListDirResponse.files resp) infos /\
    Forall2
      (fun item info =>
         FileInfo.name info = basename item /\
         FileInfo.path info = item /\
         is_file (view w) item = Returns (FileInfo.is_file info) /\
         is_dir (dirs w) item = Returns (FileInfo.is_dir info) /\
         FileInfo.size info
         = if FileInfo.is_file info then Some (st_size (dirs w) item)
           else None)
      (filter (listed (ListDirRequest.include_hidden req)) items) infos.
Proof.
  intros H.
  destruct (list_directory_returns w req resp H)
    as (items & infos & _ & _ & Hi & Hc & ->).
  exists items, infos. simpl.
  split; [exact Hi|]. split; [reflexivity|].
  split; [apply sort_by_perm|].
  apply collect_returns in Hc. revert Hc.
  apply Forall2_impl. exact (file_info_returns w).
Qed.

(** X22.  In a listing that is returned, whenever an entry stands before
    another: if the later one is a directory so is the earlier one
    (directories come first), and if both are of the same kind the
    lower-cased name of the later one is not smaller than that of the
    earlier one. *)
Theorem list_directory_sorted (w : world) (req : ListDirRequest.t) resp :
  list_directory lower w req = inr resp ->
  StronglySorted
    (fun a b =>
       (FileInfo.is_dir b = true -> FileInfo.is_dir a = true) /\
       (FileInfo.is_dir a = FileInfo.is_dir b ->
        pystr_lt (lower (FileInfo.name b)) (lower (FileInfo.name a)) = false))
    (ListDirResponse.files resp).
Proof.
  intros H.
  destruct (list_directory_returns w req resp H)
    as (items & infos & _ & _ & _ & _ & ->).
  simpl.
  eapply StronglySorted_weaken;
    [|apply (sort_by_sorted _ _ (sort_key lower) key_lt
               key_lt_asym key_lt_false_trans)].
  intros a b. unfold sort_key, key_lt. simpl.
  destruct (FileInfo.is_dir a), (FileInfo.is_dir b); simpl; intros H';
    split; intros; congruence.
Qed.

(** X23.  Unless hidden entries are asked for, no entry of a listing has a name
    that starts with a dot; when they are asked for, every child of the
    directory is listed. *)
Theorem list_directory_hidden (w : world) (req : ListDirRequest.t) resp :
  list_directory lower w req = inr resp ->
  (ListDirRequest.include_hidden req = false ->
   forall x rest, In x (ListDirResponse.files resp) ->
                  FileInfo.name x <> 46 :: rest)
  /\
  (ListDirRequest.include_hidden req = true ->
   forall items,
     iterdir (dirs w) (Path_of (ListDirRequest.path req)) = Returns items ->
     Permutation (map FileInfo.path (ListDirResponse.files resp)) items).
Proof.
  intros H.
  destruct (list_directory_returns w req resp H)
    as (items & infos & _ & _ & Hi & Hc & ->).
  apply collect_returns in Hc. simpl.
  split.
  - intros Hh x rest Hx. rewrite Hh in Hc.
    apply (Permutation_in _ (sort_by_perm _ _ _ _ _)) in Hx.
    destruct (Forall2_In_r _ _ _ _ Hc Hx) as (item & Hin & Hinfo).
    apply filter_In in Hin as [_ Hl].
    apply file_info_returns in Hinfo as (Hn & _).
    intros E. rewrite Hn in E.
    unfold listed, hidden in Hl. rewrite E in Hl. discriminate.
  - intros Hh items' Hi'. rewrite Hi in Hi'. injection Hi' as <-.
    rewrite Hh in Hc.
    rewrite (Permutation_map FileInfo.path (sort_by_perm _ _ _ _ infos)).
    replace (filter (listed true) items) with items in Hc.
    2:{ clear. induction items as [|i l IH]; simpl; [reflexivity|].
        f_equal; exact IH. }
    replace (map FileInfo.path infos) with items; [reflexivity|].
    clear H Hi.
    induction Hc as [|item info l l' Hx _ IH]; simpl; [reflexivity|].
    apply file_info_returns in Hx as (_ & -> & _). f_equal; exact IH.
Qed.

(** X24.  Entries with the same sort key, that is of the same kind and with the
    same lower-cased name, stand in a listing in the order in which the
    directory gave them. *)
Theorem list_directory_stable (w : world) (req : ListDirRequest.t) resp
    (d : bool) (n : pystr) :
  list_directory lower w req = inr resp ->
  exists items infos,
    iterdir (dirs w) (Path_of (ListDirRequest.path req)) = Returns items /\
    Forall2 (fun item info => file_info w item = Returns info)
            (filter (listed (ListDirRequest.include_hidden req)) items)
            infos /\
    filter (same_key lower d n) (ListDirResponse.files resp)
    = filter (same_key lower d n) infos.
Proof.
  intros H.
  destruct (list_directory_returns w req resp H)
    as (items & infos & _ & _ & Hi & Hc & ->).
  exists items, infos. split; [exact Hi|].
  split; [exact (collect_returns _ _ _ _ Hc)|]. simpl.
  apply sort_by_stable.
  assert (E : forall a b, pystr_eqb a b = true -> a = b).
  { induction a as [|x a IH]; intros [|y b]; simpl; try discriminate; auto.
    intros H'; apply andb_true_iff in H' as [H1 H2].
    apply Z.eqb_eq in H1; subst; f_equal; auto. }
  intros a b Ha Hb. unfold same_key in Ha, Hb.
  apply andb_true_iff in Ha as [Ha1 Ha2], Hb as [Hb1 Hb2].
  apply eqb_prop in Ha1, Hb1. apply E in Ha2, Hb2.
  unfold sort_key. rewrite Ha1, Hb1, Ha2, Hb2. apply key_lt_irrefl.
Qed.

End ListDirectory.

(** * Reading and writing files *)

(** ** UTF-8: what [encode] writes, the decoders read back *)

Ltac darith := Z.div_mod_to_equations; lia.

Lemma byte_of_value (z : Z) :
  0 <= z < 256 -> Z.of_N (Byte.to_N (Utf8.byte_of z)) = z.
Proof.
  intros H. unfold Utf8.byte_of.
  destruct (Byte.of_N (Z.to_N z)) as [b|] eqn:E.
  - apply Byte.to_of_N in E. rewrite E. lia.
  - apply Byte.of_N_None_iff in E. lia.
Qed.

Lemma lor_shiftl_6 (h l : Z) :
  0 <= h -> 0 <= l < 64 -> Z.lor (Z.shiftl h 6) l = h * 64 + l.
Proof.
  intros Hh Hl.
  rewrite Z.shiftl_mul_pow2 by lia. change (2 ^ 6) with 64.
  rewrite <- Z.lxor_lor, <- Z.add_nocarry_lxor; try reflexivity.
  all: apply Z.bits_inj'; intros n Hn; rewrite Z.land_spec, Z.bits_0.
  all: destruct (Z.ltb_spec n 6).
  all: try (replace (h * 64) with (h * 2 ^ 6) by reflexivity;
            rewrite Z.mul_pow2_bits_low by lia; reflexivity).
  all: rewrite (Z.bits_above_log2 l n), andb_false_r; try reflexivity; try lia.
  all: destruct (Z.eq_dec l 0) as [->|]; [simpl; lia|].
  all: apply Z.log2_lt_pow2; try lia.
  all: apply Z.lt_le_trans with (2 ^ 6); [simpl; lia|].
  all: apply Z.pow_le_mono_r; lia.
Qed.

Lemma land_mask (b : Z) (k : Z) :
  0 <= k -> Z.land b (Z.ones k) = b mod 2 ^ k.
Proof. intros; apply Z.land_ones; assumption. Qed.

Ltac zcmp0 :=
  repeat match goal with
  | |- context [?a <? ?b] => destruct (Z.ltb_spec a b); try lia
  | |- context [?a <=? ?b] => destruct (Z.leb_spec a b); try lia
  | |- context [?a =? ?b] => destruct (Z.eqb_spec a b); try lia
  end.

Ltac zcmp := zcmp0; simpl.

Lemma start_1 b : 0 <= b < 128 -> Text.start b = (Some b, None).
Proof. intros; unfold Text.start, Text.between; zcmp; reflexivity. Qed.

Lemma start_2 b :
  194 <= b <= 223 ->
  Text.start b
  = (None, Some {| Text.due := 1; Text.bits := Z.land b 31;
                   Text.lo := 128; Text.hi := 191 |}).
Proof. intros; unfold Text.start, Text.between; zcmp; reflexivity. Qed.

Lemma start_3 b :
  224 <= b <= 239 ->
  Text.start b
  = (None, Some {| Text.due := 2; Text.bits := Z.land b 15;
                   Text.lo := if b =? 224 then 160 else 128;
                   Text.hi := if b =? 237 then 159 else 191 |}).
Proof. intros; unfold Text.start, Text.between; zcmp; reflexivity. Qed.

Lemma start_4 b :
  240 <= b <= 244 ->
  Text.start b
  = (None, Some {| Text.due := 3; Text.bits := Z.land b 7;
                   Text.lo := if b =? 240 then 144 else 128;
                   Text.hi := if b =? 244 then 143 else 191 |}).
Proof. intros; unfold Text.start, Text.between; zcmp; reflexivity. Qed.

Lemma step_last p b :
  Text.due p = 1%nat -> Text.lo p <= b <= Text.hi p ->
  Text.step (Some p) b
  = (Some (Z.lor (Z.shiftl (Text.bits p) 6) (Z.land b 63)), None).
Proof.
  intros Hd Hb. unfold Text.step, Text.between. rewrite Hd.
  zcmp; reflexivity.
Qed.

Lemma step_more p b k :
  Text.due p = S (S k) -> Text.lo p <= b <= Text.hi p ->
  Text.step (Some p) b
  = (None, Some {| Text.due := S k;
                   Text.bits := Z.lor (Z.shiftl (Text.bits p) 6) (Z.land b 63);
                   Text.lo := 128; Text.hi := 191 |}).
Proof.
  intros Hd Hb. unfold Text.step, Text.between. rewrite Hd.
  zcmp; reflexivity.
Qed.

Lemma cont_bits (h x : Z) :
  0 <= h -> 0 <= x < 64 ->
  Z.lor (Z.shiftl h 6) (Z.land (128 + x) 63) = h * 64 + x.
Proof.
  intros Hh Hx. change 63 with (Z.ones 6). rewrite Z.land_ones by lia.
  change (2 ^ 6) with 64.
  replace ((128 + x) mod 64) with x by darith.
  apply lor_shiftl_6; assumption.
Qed.

Lemma lead_bits (base x k : Z) :
  0 <= k -> 0 <= x < 2 ^ k -> base mod 2 ^ k = 0 ->
  Z.land (base + x) (Z.ones k) = x.
Proof.
  intros Hk Hx Hb. rewrite Z.land_ones by lia.
  rewrite Z.add_mod by lia. rewrite Hb, Z.add_0_l, Z.mod_mod by lia.
  apply Z.mod_small; lia.
Qed.

Ltac side :=
  first [reflexivity
        | cbn [Text.lo Text.hi Text.due Text.bits]; zcmp0; darith].

(** One byte of a well-formed sequence, for the decoder and the check. *)
Lemma start_byte_emit z rest :
  0 <= z < 128 ->
  Text.decode_from None (Utf8.byte_of z :: rest)
  = z :: Text.decode_from None rest
  /\ valid_from None (Utf8.byte_of z :: rest) = valid_from None rest.
Proof.
  intros H. cbn [Text.decode_from valid_from].
  rewrite byte_of_value by lia. unfold Text.step.
  rewrite start_1 by lia. auto.
Qed.

Lemma start_byte_pending z p rest :
  0 <= z < 256 -> Text.start z = (None, Some p) ->
  Text.decode_from None (Utf8.byte_of z :: rest)
  = Text.decode_from (Some p) rest
  /\ valid_from None (Utf8.byte_of z :: rest) = valid_from (Some p) rest.
Proof.
  intros H E. cbn [Text.decode_from valid_from].
  rewrite byte_of_value by lia. unfold Text.step. rewrite E. auto.
Qed.

Lemma cont_byte_last z p rest :
  0 <= z < 256 -> Text.due p = 1%nat -> Text.lo p <= z <= Text.hi p ->
  Text.decode_from (Some p) (Utf8.byte_of z :: rest)
  = Z.lor (Z.shiftl (Text.bits p) 6) (Z.land z 63)
    :: Text.decode_from None rest
  /\ valid_from (Some p) (Utf8.byte_of z :: rest) = valid_from None rest.
Proof.
  intros H Hd Hr. cbn [Text.decode_from valid_from].
  rewrite byte_of_value by lia. rewrite (step_last p z Hd Hr).
  unfold Text.between.
  destruct (Z.leb_spec (Text.lo p) z); [|lia].
  destruct (Z.leb_spec z (Text.hi p)); [|lia]. auto.
Qed.

Lemma cont_byte_more z p k rest :
  0 <= z < 256 -> Text.due p = S (S k) -> Text.lo p <= z <= Text.hi p ->
  let p' := {| Text.due := S k;
               Text.bits := Z.lor (Z.shiftl (Text.bits p) 6) (Z.land z 63);
               Text.lo := 128; Text.hi := 191 |} in
  Text.decode_from (Some p) (Utf8.byte_of z :: rest)
  = Text.decode_from (Some p') rest
  /\ valid_from (Some p) (Utf8.byte_of z :: rest) = valid_from (Some p') rest.
Proof.
  intros H Hd Hr p'. cbn [Text.decode_from valid_from].
  rewrite byte_of_value by lia. rewrite (step_more p z k Hd Hr).
  unfold Text.between.
  destruct (Z.leb_spec (Text.lo p) z); [|lia].
  destruct (Z.leb_spec z (Text.hi p)); [|lia]. auto.
Qed.

Ltac go_start L :=
  match goal with
  | |- context [Text.decode_from None (Utf8.byte_of ?z :: ?r)] =>
      destruct (start_byte_pending z _ r ltac:(darith) (L z ltac:(darith)))
        as [-> ->]
  end.

Ltac go_more k :=
  match goal with
  | |- context [Text.decode_from (Some ?p) (Utf8.byte_of ?z :: ?r)] =>
      destruct (cont_byte_more z p k r) as [-> ->];
      [darith | reflexivity | side |]
  end.

Ltac go_last :=
  match goal with
  | |- context [Text.decode_from (Some ?p) (Utf8.byte_of ?z :: ?r)] =>
      destruct (cont_byte_last z p r) as [-> ->];
      [darith | reflexivity | side |]
  end.

Lemma decode_2 c rest :
  128 <= c < 2048 ->
  let l := Utf8.byte_of (192 + c / 64)
           :: Utf8.byte_of (128 + c mod 64) :: rest in
  Text.decode_from None l = c :: Text.decode_from None rest
  /\ valid_from None l = valid_from None rest.
Proof.
  intros H l; subst l. go_start start_2. go_last.
  cbn [Text.bits]. change 31 with (Z.ones 5).
  rewrite (lead_bits 192 (c / 64) 5) by side.
  rewrite cont_bits by darith.
  replace (c / 64 * 64 + c mod 64) with c by darith. auto.
Qed.

Lemma decode_3 c rest :
  2048 <= c < 65536 -> ~ 55296 <= c <= 57343 ->
  let l := Utf8.byte_of (224 + c / 4096)
           :: Utf8.byte_of (128 + (c / 64) mod 64)
           :: Utf8.byte_of (128 + c mod 64) :: rest in
  Text.decode_from None l = c :: Text.decode_from None rest
  /\ valid_from None l = valid_from None rest.
Proof.
  intros H Hs l; subst l. go_start start_3. go_more 0%nat. go_last.
  cbn [Text.bits]. change 15 with (Z.ones 4).
  rewrite (lead_bits 224 (c / 4096) 4) by side.
  rewrite (cont_bits (c / 4096)) by darith.
  rewrite cont_bits by darith.
  replace ((c / 4096 * 64 + (c / 64) mod 64) * 64 + c mod 64) with c
    by darith.
  auto.
Qed.

Lemma decode_4 c rest :
  65536 <= c < 1114112 ->
  let l := Utf8.byte_of (240 + c / 262144)
           :: Utf8.byte_of (128 + (c / 4096) mod 64)
           :: Utf8.byte_of (128 + (c / 64) mod 64)
           :: Utf8.byte_of (128 + c mod 64) :: rest in
  Text.decode_from None l = c :: Text.decode_from None rest
  /\ valid_from None l = valid_from None rest.
Proof.
  intros H l; subst l.
  go_start start_4. go_more 1%nat. go_more 0%nat. go_last.
  cbn [Text.bits]. change 7 with (Z.ones 3).
  rewrite (lead_bits 240 (c / 262144) 3) by side.
  rewrite (cont_bits (c / 262144)) by darith.
  rewrite (cont_bits (c / 262144 * 64 + (c / 4096) mod 64)) by darith.
  rewrite cont_bits by darith.
  replace (((c / 262144 * 64 + (c / 4096) mod 64) * 64
            + (c / 64) mod 64) * 64 + c mod 64) with c by darith.
  auto.
Qed.

Lemma decode_encoded_char c bs rest :
  Utf8.encode_char c = Some bs ->
  Text.decode_from None (map Utf8.byte_of bs ++ rest)
  = c :: Text.decode_from None rest
  /\ valid_from None (map Utf8.byte_of bs ++ rest) = valid_from None rest.
Proof.
  unfold Utf8.encode_char, Text.between.
  destruct (Z.ltb_spec c 0); [discriminate|].
  destruct (Z.ltb_spec c 128).
  { intros [= <-]. apply start_byte_emit; lia. }
  destruct (Z.ltb_spec c 2048).
  { intros [= <-]. apply decode_2; lia. }
  destruct (Z.leb_spec 55296 c), (Z.leb_spec c 57343); cbn [andb];
    try discriminate.
  all: destruct (Z.ltb_spec c 65536);
    [intros [= <-]; apply decode_3; lia|].
  all: destruct (Z.ltb_spec c 1114112); [|discriminate].
  all: intros [= <-]; apply decode_4; lia.
Qed.

Lemma encode_char_scalar c : Utf8.scalar c <-> Utf8.encode_char c <> None.
Proof.
  unfold Utf8.scalar, Utf8.encode_char, Text.between.
  zcmp0; cbn [andb]; split; intros; try discriminate; try lia;
    try congruence.
Qed.

Lemma encode_valid (s : pystr) :
  Forall Utf8.scalar s ->
  exists data,
    Utf8.encode s = Some data /\
    utf8_valid data = true /\ Text.utf8_ignore data = s.
Proof.
  unfold utf8_valid, Text.utf8_ignore.
  induction 1 as [|c s Hc _ (data & He & Hv & Hd)].
  - exists []; auto.
  - apply encode_char_scalar in Hc.
    destruct (Utf8.encode_char c) as [bs|] eqn:E; [|congruence].
    exists (map Utf8.byte_of bs ++ data). cbn [Utf8.encode].
    rewrite E, He.
    destruct (decode_encoded_char c bs data E) as [-> ->].
    rewrite Hd. auto.
Qed.

(** X11.  A text made of Unicode scalar values encodes, its encoding is
    well-formed UTF-8, and both decoders, the strict one of [read_file] and
    the lenient one of [search_files], give the text back. *)
Theorem utf8_round_trip (s : pystr) :
  Forall Utf8.scalar s ->
  exists data,
    Utf8.encode s = Some data /\
    utf8_valid data = true /\ Text.utf8_ignore data = s /\
    Utf8.decode data = Some s.
Proof.
  intros F. destruct (encode_valid s F) as (data & He & Hv & Hd).
  exists data. unfold Utf8.decode. rewrite Hv, Hd. auto.
Qed.

(** An encoding that succeeds had only code points to encode, and decodes
    strictly to the text it came from. *)
Lemma encode_decode (s : pystr) (data : list byte) :
  Utf8.encode s = Some data -> Utf8.decode data = Some s.
Proof.
  intros E.
  assert (F : Forall Utf8.scalar s).
  { revert data E. induction s as [|c s IH]; intros data E; constructor.
    - apply encode_char_scalar. cbn [Utf8.encode] in E.
      destruct (Utf8.encode_char c); congruence.
    - cbn [Utf8.encode] in E.
      destruct (Utf8.encode_char c); [|discriminate].
      destruct (Utf8.encode s) as [r|]; [|discriminate]. exact (IH r eq_refl). }
  destruct (encode_valid s F) as (d & E' & Hv & Hd).
  rewrite E in E'. injection E' as <-.
  unfold Utf8.decode. rewrite Hv, Hd. reflexivity.
Qed.

(** Each code point takes from one to four bytes, and one byte when it is
    ASCII. *)
Lemma encode_length (s : pystr) : forall data,
  Utf8.encode s = Some data ->
  len s <= len data <= 4 * len s /\
  (Forall (fun c => c < 128) s -> len data = len s).
Proof.
  unfold len.
  induction s as [|c s IH]; intros data E; cbn [Utf8.encode] in E.
  - injection E as <-. simpl. split; [lia|reflexivity].
  - destruct (Utf8.encode_char c) as [bs|] eqn:Ec; [|discriminate].
    destruct (Utf8.encode s) as [r|]; [|discriminate].
    injection E as <-. destruct (IH r eq_refl) as [Hb Ha].
    rewrite length_app, length_map. cbn [length].
    assert (L : (1 <= length bs <= 4)%nat /\ (c < 128 -> length bs = 1%nat)).
    { revert Ec. unfold Utf8.encode_char, Text.between.
      zcmp0; cbn [andb]; intros [= <-]; simpl; split; lia. }
    split; [lia|].
    intros F. inversion F; subst. rewrite Nat2Z.inj_add, Ha by assumption.
    destruct L as [_ L]. rewrite L by assumption. lia.
Qed.

(** Newline translation leaves no carriage return. *)
Lemma universal_newlines_no_cr (s : pystr) :
  ~ In 13 (Text.universal_newlines s).
Proof.
  assert (G : forall n s, (length s <= n)%nat ->
                          ~ In 13 (Text.universal_newlines s)).
  { induction n as [|n IH]; intros [|c t] L; simpl in *; try tauto; try lia.
    destruct (Z.eqb_spec c 13).
    - intros [H|H]; [discriminate|].
      destruct t as [|d t']; [exact H|].
      destruct (d =? 10); revert H; apply IH; simpl in *; lia.
    - intros [H|H]; [congruence|]. revert H; apply IH; lia. }
  exact (G (length s) s (Nat.le_refl _)).
Qed.

(** Text without a carriage return is left as it is. *)
Lemma universal_newlines_id (s : pystr) :
  ~ In 13 s -> Text.universal_newlines s = s.
Proof.
  induction s as [|c t IH]; simpl; [reflexivity|]. intros H.
  destruct (Z.eqb_spec c 13); [subst; tauto|].
  f_equal. apply IH. tauto.
Qed.

Section ReadWrite.

Context {W : World}.

(** X12.  What [read_file] answers: 404 exactly when the path is not a regular
    file; a response exactly when the file opens, is read to its end and
    holds well-formed UTF-8, and then the content is the decoded text with
    CR LF and CR turned into LF, so that it holds no carriage return. *)
Theorem read_file_outcome (w : world) (req : ReadRequest.t) :
  (read_file w req = inl (HTTPException 404)
   <-> is_file (view w) (Path_of (ReadRequest.path req)) = Returns false)
  /\
  (forall resp,
     read_file w req = inr resp <->
     is_file (view w) (Path_of (ReadRequest.path req)) = Returns true /\
     exists data,
       open_ (view w) (Path_of (ReadRequest.path req)) = Content data None /\
       utf8_valid data = true /\
       resp = {| ReadResponse.path := Path_of (ReadRequest.path req);
                 ReadResponse.content :=
                   Text.universal_newlines (Text.utf8_ignore data) |})
  /\
  (forall resp, read_file w req = inr resp ->
                ~ In 13 (ReadResponse.content resp)).
Proof.
  unfold read_file, Utf8.decode.
  destruct (is_file (view w) (Path_of (ReadRequest.path req)))
    as [exc|[|]].
  - split; [split; discriminate|]. split; [|discriminate].
    intros resp; split; [discriminate|intros [H _]; discriminate].
  - destruct (open_ (view w) (Path_of (ReadRequest.path req)))
      as [|data [k|]].
    1,2: split; [split; discriminate|]; split;
      [split; [discriminate|intros [_ (d & H & _)]; discriminate]
      |discriminate].
    destruct (utf8_valid data) eqn:V.
    + split; [split; discriminate|]. split.
      * intros resp; split.
        -- intros [= <-]. split; [reflexivity|]. exists data; auto.
        -- intros [_ (d & [= <-] & _ & ->)]. reflexivity.
      * intros resp [= <-]. apply universal_newlines_no_cr.
    + split; [split; discriminate|]. split; [|discriminate].
      intros resp; split; [discriminate|].
      intros [_ (d & [= <-] & V' & _)]. congruence.
  - split; [split; auto|]. split; [|discriminate].
    intros resp; split; [discriminate|intros [H _]; discriminate].
Qed.

(** X13.  What a successful [write_file] reports: [path] is the path of
    the request in the normal form of [pathlib], and [bytes_written] is
    the number of bytes of the UTF-8 encoding of the content, at least the
    number of its characters and at most four times that, and equal to it
    when the content is ASCII. *)
Theorem write_file_bytes_written (w w' : world) (req : WriteRequest.t) resp :
  write_file w req = (w', inr resp) ->
  WriteResponse.path resp = Path_of (WriteRequest.path req) /\
  (exists data,
     Utf8.encode (WriteRequest.content req) = Some data /\
     WriteResponse.bytes_written resp = len data) /\
  len (WriteRequest.content req) <= WriteResponse.bytes_written resp
    <= 4 * len (WriteRequest.content req) /\
  (Forall (fun c => c < 128) (WriteRequest.content req) ->
   WriteResponse.bytes_written resp = len (WriteRequest.content req)).
Proof.
  unfold write_file.
  destruct (if WriteRequest.create_parents req
            then mkdir_parents w (parent (Path_of (WriteRequest.path req)))
            else (w, None)) as [w1 [e1|]]; [discriminate|].
  destruct (Utf8.encode (WriteRequest.content req)) as [data|] eqn:E;
    [|discriminate].
  destruct (write_bytes w1 (Path_of (WriteRequest.path req)) data)
    as [w2 [e2|]]; [discriminate|].
  intros [= <- <-]. simpl.
  destruct (encode_length _ _ E) as [Hb Ha].
  split; [reflexivity|]. split; [exists data; auto|]. split; assumption.
Qed.

(** X14.  Reading back what was written.  Provided a [write_bytes] that returns
    leaves a regular file holding the bytes it was given: after a
    [write_file] that succeeded, [read_file] on the same path returns the
    content that was written with CR LF and CR turned into LF, and
    therefore the content itself when it holds no carriage return. *)
Theorem write_then_read (w w' : world) (req : WriteRequest.t) resp :
  (forall w1 p data w2,
     write_bytes w1 p data = (w2, None) ->
     is_file (view w2) p = Returns true /\
     open_ (view w2) p = Content data None) ->
  write_file w req = (w', inr resp) ->
  read_file w' {| ReadRequest.path := WriteRequest.path req |}
  = inr {| ReadResponse.path := Path_of (WriteRequest.path req);
           ReadResponse.content :=
             Text.universal_newlines (WriteRequest.content req) |}
  /\
  (~ In 13 (WriteRequest.content req) ->
   read_file w' {| ReadRequest.path := WriteRequest.path req |}
   = inr {| ReadResponse.path := Path_of (WriteRequest.path req);
            ReadResponse.content := WriteRequest.content req |}).
Proof.
  intros Hw. unfold write_file.
  destruct (if WriteRequest.create_parents req
            then mkdir_parents w (parent (Path_of (WriteRequest.path req)))
            else (w, None)) as [w1 [e1|]]; [discriminate|].
  destruct (Utf8.encode (WriteRequest.content req)) as [data|] eqn:E;
    [|discriminate].
  destruct (write_bytes w1 (Path_of (WriteRequest.path req)) data)
    as [w2 [e2|]] eqn:B; [discriminate|].
  intros [= <- <-].
  destruct (Hw _ _ _ _ B) as [Hf Ho].
  assert (R : read_file w2 {| ReadRequest.path := WriteRequest.path req |}
              = inr {| ReadResponse.path := Path_of (WriteRequest.path req);
                       ReadResponse.content :=
                         Text.universal_newlines (WriteRequest.content req) |}).
  { unfold read_file. simpl. rewrite Hf, Ho. simpl.
    rewrite (encode_decode _ _ E). reflexivity. }
  split; [exact R|].
  intros H. rewrite R, (universal_newlines_id _ H). reflexivity.
Qed.

End ReadWrite.

Section WriteSearch.

Context {W : World} {R : Regex}.

(** X15.  Searching what was written.  Provided a [write_bytes] that returns
    leaves an existing regular file holding the bytes it was given: after
    a [write_file] that succeeded, a search with a pattern that compiles
    and the written path as root returns, up to the cap, the matching
    lines of the written content, its CR LF and CR read as LF, whatever
    [file_pattern] is. *)
Theorem write_then_search (w w' : world) (req : WriteRequest.t) resp
    (sreq : SearchRequest) pat :
  (forall w1 p data w2,
     write_bytes w1 p data = (w2, None) ->
     exists_ (view w2) p = Returns true /\
     is_file (view w2) p = Returns true /\
     open_ (view w2) p = Content data None) ->
  write_file w req = (w', inr resp) ->
  path sreq = Path_of (WriteRequest.path req) ->
  re_compile (pattern sreq) = Compiled pat ->
  exists tr sresp,
    search_files (view w') sreq = (tr, inr sresp) /\
    matches sresp
    = firstn (Z.to_nat (max_results sreq))
        (line_matches pat (path sreq) 1
           (Text.lines_from []
              (Text.universal_newlines (WriteRequest.content req)))).
Proof.
  intros Hw Hwr Hpath Hpat. revert Hwr. unfold write_file.
  destruct (if WriteRequest.create_parents req
            then mkdir_parents w (parent (Path_of (WriteRequest.path req)))
            else (w, None)) as [w1 [e1|]]; [discriminate|].
  destruct (Utf8.encode (WriteRequest.content req)) as [data|] eqn:E;
    [|discriminate].
  destruct (write_bytes w1 (Path_of (WriteRequest.path req)) data)
    as [w2 [e2|]] eqn:B; [discriminate|].
  intros [= <- <-].
  destruct (Hw _ _ _ _ B) as (He & Hf & Ho). rewrite <- Hpath in He, Hf, Ho.
  assert (F : files_to_search (view w2) sreq
              = ([EvIsFile (path sreq)], inr [path sreq]))
    by (unfold files_to_search; rewrite Hf; reflexivity).
  rewrite (search_files_total (view w2) sreq pat _ _ He Hpat F).
  do 2 eexists; split; [reflexivity|]. cbn [matches].
  rewrite scan_files_found. simpl. rewrite app_nil_r.
  unfold file_matches. rewrite Ho. simpl. unfold Text.readlines.
  apply encode_decode in E. unfold Utf8.decode in E.
  destruct (utf8_valid data); [|discriminate]. injection E as ->.
  f_equal. lia.
Qed.

End WriteSearch.

(** * Deleting *)

Section Delete.

Context {W : World}.

(** X16.  [delete_file] changes the file system by one removal at most, made at
    the path of the request and chosen by what is there: [unlink] for a
    regular file, [rmdir] for a directory without [recursive], [rmtree]
    for a directory with it.  A directory is never removed with its
    content unless [recursive] is set, and a path that does not exist
    leaves the file system as it was. *)
Theorem delete_file_footprint (w : world) (req : DeleteRequest.t) :
  let p := Path_of (DeleteRequest.path req) in
  fst (delete_file w req) = w \/
  (exists_ (view w) p = Returns true /\
   exists r,
     target r = p /\ fst (delete_file w req) = fst (os_remove w r) /\
     match r with
     | Unlink _ => is_file (view w) p = Returns true
     | Rmdir _ =>
         is_file (view w) p = Returns false /\
         is_dir (dirs w) p = Returns true /\
         DeleteRequest.recursive req = false
     | Rmtree _ =>
         is_file (view w) p = Returns false /\
         is_dir (dirs w) p = Returns true /\
         DeleteRequest.recursive req = true
     end).
Proof.
  intros p. unfold delete_file. cbv zeta. fold p.
  destruct (exists_ (view w) p) as [exc|[|]]; try (left; reflexivity).
  destruct (is_file (view w) p) as [exc|[|]] eqn:F; try (left; reflexivity).
  - right; split; [reflexivity|]. exists (Unlink p).
    destruct (os_remove w (Unlink p)) as [w1 [e|]]; simpl; auto.
  - destruct (is_dir (dirs w) p) as [exc|[|]] eqn:D;
      try (left; reflexivity).
    right; split; [reflexivity|].
    destruct (DeleteRequest.recursive req) eqn:Rc.
    + exists (Rmtree p).
      destruct (os_remove w (Rmtree p)) as [w1 [e|]]; simpl; auto.
    + exists (Rmdir p).
      destruct (os_remove w (Rmdir p)) as [w1 [e|]]; simpl; auto.
Qed.



(** X18.  For a path that exists and is neither a regular file nor a directory
    (a socket, a FIFO, a device), [delete_file] removes nothing, leaves
    the file system as it was and still answers [deleted = true]. *)
Theorem delete_file_other_kind (w : world) (req : DeleteRequest.t) :
  exists_ (view w) (Path_of (DeleteRequest.path req)) = Returns true ->
  is_file (view w) (Path_of (DeleteRequest.path req)) = Returns false ->
  is_dir (dirs w) (Path_of (DeleteRequest.path req)) = Returns false ->
  delete_file w req
  = (w, inr {| DeleteResponse.path := Path_of (DeleteRequest.path req);
               DeleteResponse.deleted := true |}).
Proof.
  intros He Hf Hd. unfold delete_file. rewrite He, Hf, Hd. reflexivity.
Qed.

End Delete.

Section DeleteThen.

Context {W : World} {R : Regex}.

(** X19.  After a deletion.  Provided a removal that returns leaves nothing at
    its target: once [delete_file] has answered for a regular file or a
    directory, reading the path, searching under it and deleting it again
    all answer 404. *)
Theorem delete_then_gone (w w' : world) (req : DeleteRequest.t) resp
    (sreq : SearchRequest) :
  (forall w1 r w2,
     os_remove w1 r = (w2, None) ->
     exists_ (view w2) (target r) = Returns false /\
     is_file (view w2) (target r) = Returns false) ->
  delete_file w req = (w', inr resp) ->
  is_file (view w) (Path_of (DeleteRequest.path req)) = Returns true
  \/ is_dir (dirs w) (Path_of (DeleteRequest.path req)) = Returns true ->
  path sreq = Path_of (DeleteRequest.path req) ->
  read_file w' {| ReadRequest.path := DeleteRequest.path req |}
  = inl (HTTPException 404)
  /\ search_files (view w') sreq
     = ([EvExists (path sreq)], inl (HTTPException 404))
  /\ snd (delete_file w' req) = inl (HTTPException 404).
Proof.
  intros Hr Hd Hk Hp.
  assert (G : exists_ (view w') (Path_of (DeleteRequest.path req))
              = Returns false /\
              is_file (view w') (Path_of (DeleteRequest.path req))
              = Returns false).
  { revert Hd. unfold delete_file.
    destruct (exists_ (view w) (Path_of (DeleteRequest.path req)))
      as [exc|[|]]; try discriminate.
    destruct (is_file (view w) (Path_of (DeleteRequest.path req)))
      as [exc|[|]]; try discriminate.
    - destruct (os_remove w (Unlink _)) as [w1 [e|]] eqn:O; [discriminate|].
      intros [= <- _]. exact (Hr _ _ _ O).
    - destruct Hk as [Hk|Hk]; [discriminate|]. rewrite Hk.
      destruct (DeleteRequest.recursive req).
      + destruct (os_remove w (Rmtree _)) as [w1 [e|]] eqn:O; [discriminate|].
        intros [= <- _]. exact (Hr _ _ _ O).
      + destruct (os_remove w (Rmdir _)) as [w1 [e|]] eqn:O; [discriminate|].
        intros [= <- _]. exact (Hr _ _ _ O). }
  destruct G as [Ge Gf]. repeat split.
  - unfold read_file. simpl. rewrite Gf. reflexivity.
  - unfold search_files. rewrite Hp, Ge. reflexivity.
  - unfold delete_file. rewrite Ge. reflexivity.
Qed.

End DeleteThen.

(** * More on the search *)

Section SearchMore.

Context {R : Regex}.
Variable fs : FileSystem.


(** The candidates do not depend on the cap. *)
Lemma files_to_search_cap (req : SearchRequest) cap :
  files_to_search fs (with_max_results cap req) = files_to_search fs req.
Proof. reflexivity. Qed.

(** X4.  A smaller cap gives a prefix: for caps [0 <= c1 <= c2], what the
    search returns with [c1] is the first [c1] of the matches it returns
    with [c2]. *)
Theorem search_cap_monotone (req : SearchRequest) c1 c2 tr2 resp2 :
  0 <= c1 <= c2 ->
  search_files fs (with_max_results c2 req) = (tr2, inr resp2) ->
  exists tr1 resp1,
    search_files fs (with_max_results c1 req) = (tr1, inr resp1) /\
    matches resp1 = firstn (Z.to_nat c1) (matches resp2).
Proof.
  intros Hc H.
  destruct (search_files_returns fs _ _ _ H)
    as (pat & tr0 & files & He & Hp & Hf & _ & Hm & _).
  rewrite files_to_search_cap in Hf.
  rewrite (search_files_total fs (with_max_results c1 req) pat tr0 files
             He Hp Hf).
  do 2 eexists; split; [reflexivity|]. cbn [matches].
  rewrite Hm, !scan_files_found. simpl.
  rewrite firstn_firstn. f_equal. lia.
Qed.

Lemma line_matches_complete pat fp lines : forall n i line,
  nth_error lines i = Some line -> re_search pat line = true ->
  In (match_of fp (n + Z.of_nat i) line) (line_matches pat fp n lines).
Proof.
  induction lines as [|l rest IH]; intros n [|i] line Hn Hs; simpl in *;
    try discriminate; apply in_or_app.
  - injection Hn as ->. rewrite Hs. left; left. f_equal. lia.
  - right. replace (n + Z.pos (Pos.of_succ_nat i)) with (n + 1 + Z.of_nat i)
      by lia.
    apply IH; assumption.
Qed.

(** X5.  Below the cap nothing is missed: when fewer matches than
    [max_results] are returned, every line that the pattern matches, in
    every candidate that delivers it, is among them, under its 1-based
    line number. *)
Theorem search_complete_below_cap (req : SearchRequest) pat tr0 files
    tr resp :
  re_compile (pattern req) = Compiled pat ->
  files_to_search fs req = (tr0, inr files) ->
  search_files fs req = (tr, inr resp) ->
  len (matches resp) < max_results req ->
  forall fp lines i line,
    In fp files ->
    delivered (open_ fs fp) = Some lines ->
    nth_error lines i = Some line ->
    re_search pat line = true ->
    In {| file_path := fp; line_number := Z.of_nat i + 1;
          line_content := Text.rstrip line |} (matches resp).
Proof.
  intros Hp Hf H Hlt fp lines i line Hin Hd Hn Hs.
  destruct (search_files_returns fs _ _ _ H)
    as (pat' & tr0' & files' & _ & Hp' & Hf' & _ & Hm & _).
  rewrite Hp in Hp'. injection Hp' as <-.
  rewrite Hf in Hf'. injection Hf' as <- <-.
  assert (E : matches resp = all_matches fs pat files).
  { rewrite Hm, scan_files_found in *. simpl in *.
    apply firstn_all2.
    unfold len in Hlt. rewrite length_firstn in Hlt. lia. }
  rewrite E. unfold all_matches. apply in_flat_map.
  exists fp. split; [exact Hin|].
  unfold file_matches. rewrite Hd.
  replace (Z.of_nat i + 1) with (1 + Z.of_nat i) by lia.
  apply (line_matches_complete pat fp lines 1 i line Hn Hs).
Qed.

End SearchMore.

(** ** Order of the matches *)

Lemma StronglySorted_app {A} (Rel : A -> A -> Prop) (l1 l2 : list A) :
  StronglySorted Rel l1 -> StronglySorted Rel l2 ->
  (forall x y, In x l1 -> In y l2 -> Rel x y) ->
  StronglySorted Rel (l1 ++ l2).
Proof.
  induction 1 as [|x l1 Hs IH Hx]; intros H2 H12; simpl; [exact H2|].
  constructor.
  - apply IH; [exact H2|]. intros; apply H12; simpl; auto.
  - rewrite Forall_forall in *. intros y Hy.
    apply in_app_or in Hy as [Hy|Hy]; [auto|apply H12; simpl; auto].
Qed.

Lemma StronglySorted_firstn {A} (Rel : A -> A -> Prop) (l : list A) :
  StronglySorted Rel l -> forall k, StronglySorted Rel (firstn k l).
Proof.
  induction 1 as [|x l Hs IH Hx]; intros [|k]; simpl; try constructor.
  - apply IH.
  - rewrite Forall_forall in *. intros y Hy. apply Hx.
    exact (In_firstn _ _ _ Hy).
Qed.

Section SearchOrder.

Context {R : Regex}.
Variable fs : FileSystem.

Lemma line_matches_increasing pat fp lines : forall n,
  StronglySorted (fun a b => line_number a < line_number b)
                 (line_matches pat fp n lines).
Proof.
  induction lines as [|line rest IH]; intros n; simpl; [constructor|].
  destruct (re_search pat line); simpl; [|apply IH].
  constructor; [apply IH|].
  rewrite Forall_forall. intros m Hm.
  destruct (line_matches_spec _ _ _ _ _ Hm) as (_ & Hn & _). simpl. lia.
Qed.

Lemma all_matches_ordered pat files :
  NoDup files ->
  StronglySorted
    (fun a b => file_path a = file_path b -> line_number a < line_number b)
    (all_matches fs pat files).
Proof.
  induction 1 as [|fp rest Hnot Hnd IH]; simpl; [constructor|].
  apply StronglySorted_app; [|exact IH|].
  - unfold file_matches. destruct (delivered (open_ fs fp)); [|constructor].
    eapply StronglySorted_weaken; [|apply line_matches_increasing].
    intros a b H _; exact H.
  - intros x y Hx Hy Heq. exfalso. apply Hnot.
    apply (all_matches_spec fs) in Hy as [Hy _].
    unfold file_matches in Hx.
    destruct (delivered (open_ fs fp)); [|contradiction].
    apply line_matches_spec in Hx as [Hx _].
    rewrite <- Hx, Heq. exact Hy.
Qed.

(** X6.  Provided the walk lists no path twice: in what a search returns, of
    two matches in the same file the one that stands first has the
    smaller line number, so that no line is reported twice. *)
Theorem search_matches_ordered (req : SearchRequest) tr resp :
  NoDup (rglob fs (path req)) ->
  search_files fs req = (tr, inr resp) ->
  StronglySorted
    (fun a b => file_path a = file_path b -> line_number a < line_number b)
    (matches resp).
Proof.
  intros Hnd H.
  destruct (search_files_returns fs _ _ _ H)
    as (pat & tr0 & files & _ & _ & Hf & _ & Hm & _).
  rewrite Hm, scan_files_found. simpl.
  apply StronglySorted_firstn, all_matches_ordered.
  destruct (files_to_search_returns fs _ _ _ Hf)
    as [(_ & _ & ->)|(_ & _ & keep & -> & _)].
  - repeat constructor. simpl; tauto.
  - apply NoDup_filter; exact Hnd.
Qed.

(** ** What is opened *)

Lemma scan_lines_touches files pat fp cap lines : forall n s,
  In fp files ->
  Forall (touches_only files) (trace s) ->
  Forall (touches_only files) (trace (scan_lines pat fp cap n lines s)).
Proof.
  induction lines as [|line rest IH]; intros n s Hin Hs; simpl.
  - apply Forall_app; split; [exact Hs|]. repeat constructor. exact Hin.
  - assert (Forall (touches_only files) (trace s ++ [EvNext fp n]))
      by (apply Forall_app; split; [exact Hs|repeat constructor; exact Hin]).
    destruct (re_search pat line); simpl.
    + destruct (_ >=? cap); simpl; [assumption|].
      apply IH; [exact Hin|]. simpl. assumption.
    + apply IH; [exact Hin|]. simpl. assumption.
Qed.

Lemma scan_files_touches files pat cap rest : forall s,
  incl rest files ->
  Forall (touches_only files) (trace s) ->
  Forall (touches_only files) (trace (scan_files fs pat cap rest s)).
Proof.
  induction rest as [|fp rest IH]; intros s Hi Hs; simpl; [exact Hs|].
  destruct (_ >=? cap); [exact Hs|].
  assert (Hin : In fp files) by (apply Hi; simpl; auto).
  assert (Hi' : incl rest files) by (intros x Hx; apply Hi; simpl; auto).
  assert (Forall (touches_only files) (trace s ++ [EvOpen fp]))
    by (apply Forall_app; split; [exact Hs|repeat constructor; exact Hin]).
  destruct (delivered (open_ fs fp)).
  - apply IH; [exact Hi'|]. apply scan_lines_touches; assumption.
  - apply IH; [exact Hi'|]. simpl. assumption.
Qed.

(** X7.  A search opens and reads candidates only, and candidates are regular
    files: whatever is opened or read is a regular file, is the root or
    was listed by the walk and, when a non-empty [file_pattern] filters a
    root that is not a regular file, has a path that satisfies it. *)
Theorem search_opens_candidates (req : SearchRequest) tr resp p :
  search_files fs req = (tr, inr resp) ->
  In (EvOpen p) tr \/ (exists n, In (EvNext p n) tr) ->
  is_file fs p = Returns true /\
  (p = path req \/ In p (rglob fs (path req))) /\
  (forall fp file_glob,
     is_file fs (path req) = Returns false ->
     file_pattern req = Some fp -> truthy fp = true ->
     re_compile fp = Compiled file_glob ->
     re_search file_glob p = true).
Proof.
  intros H Hev.
  destruct (search_files_returns fs _ _ _ H)
    as (pat & tr0 & files & _ & _ & Hf & Htr & _).
  assert (Hin : In p files).
  { assert (T : Forall (touches_only files) tr).
    { rewrite Htr. apply scan_files_touches; [apply incl_refl|]. simpl.
      constructor; [exact I|].
      pose proof (files_to_search_no_read fs _ _ _ Hf) as N.
      clear -N. induction tr0 as [|e tr0 IH]; constructor.
      - destruct e; simpl in *; try exact I; discriminate.
      - apply IH. simpl in N. apply orb_false_iff in N as [_ N]. exact N. }
    rewrite Forall_forall in T.
    destruct Hev as [Hev|[n Hev]]; exact (T _ Hev). }
  assert (Reg : forall f, regular fs f = true -> is_file fs f = Returns true).
  { intros f. unfold regular.
    destruct (is_file fs f) as [exc|[|]]; try discriminate. reflexivity. }
  destruct (files_to_search_returns fs _ _ _ Hf)
    as [(F & _ & ->)|(F & _ & keep & -> & Hk)].
  - destruct Hin as [<-|[]].
    repeat split; auto. intros fp g F'. congruence.
  - apply filter_In in Hin as [Hin Hc].
    apply andb_true_iff in Hc as [Hc1 Hc2].
    repeat split; auto.
    intros fp g _ Hfp T C. rewrite Hfp, T in Hk.
    destruct Hk as (g' & C' & ->). rewrite C in C'.
    injection C' as <-. exact Hc2.
Qed.

(** X10.  A file whose read raises part of the way keeps the matches
    found so far.  For a search whose root is a regular file that opens
    and whose read raises once [k] lines have been delivered: the search
    does not fail; it returns, up to the cap, the matches of the first
    [k] lines; and these stand first among the matches that the whole
    file would have given. *)
Theorem read_fault_keeps_matches (req : SearchRequest) pat data k :
  exists_ fs (path req) = Returns true ->
  is_file fs (path req) = Returns true ->
  re_compile (pattern req) = Compiled pat ->
  open_ fs (path req) = Content data (Some k) ->
  exists tr resp,
    search_files fs req = (tr, inr resp) /\
    matches resp
    = firstn (Z.to_nat (max_results req))
        (line_matches pat (path req) 1 (firstn k (Text.readlines data))) /\
    exists more,
      firstn (Z.to_nat (max_results req))
        (line_matches pat (path req) 1 (Text.readlines data))
      = matches resp ++ more.
Proof.
  intros He Hf Hp Ho.
  assert (A : forall l1 l2 n,
            line_matches pat (path req) n (l1 ++ l2)
            = line_matches pat (path req) n l1
              ++ line_matches pat (path req) (n + len l1) l2).
  { induction l1 as [|l l1 IH]; intros l2 n; simpl.
    - f_equal. unfold len; simpl; lia.
    - rewrite IH, app_assoc. do 2 f_equal. unfold len; simpl length. lia. }
  assert (F : files_to_search fs req
              = ([EvIsFile (path req)], inr [path req]))
    by (unfold files_to_search; rewrite Hf; reflexivity).
  rewrite (search_files_total fs req pat _ _ He Hp F).
  do 2 eexists; split; [reflexivity|]. cbn [matches].
  rewrite scan_files_found. simpl. rewrite app_nil_r.
  unfold file_matches. rewrite Ho. simpl.
  rewrite Nat.sub_0_r.
  split; [reflexivity|].
  exists (firstn
            (Z.to_nat (max_results req)
             - length (line_matches pat (path req) 1
                         (firstn k (Text.readlines data))))
            (line_matches pat (path req)
               (1 + len (firstn k (Text.readlines data)))
               (skipn k (Text.readlines data)))).
  rewrite <- firstn_app, <- A, firstn_skipn. reflexivity.
Qed.

End SearchOrder.

(** ** The text of a match *)

Lemma lines_from_concat (s : pystr) : forall cur,
  concat (Text.lines_from cur s) = cur ++ s.
Proof.
  induction s as [|c t IH]; intros cur; simpl.
  - destruct cur; simpl; rewrite ?app_nil_r; reflexivity.
  - destruct (c =? 10); simpl; rewrite IH, <- ?app_assoc; reflexivity.
Qed.

(** A line holds a line feed at its end only. *)
Lemma lines_from_lf (s : pystr) : forall cur,
  ~ In 10 cur ->
  Forall (fun l => ~ In 10 (removelast l)) (Text.lines_from cur s).
Proof.
  induction s as [|c t IH]; intros cur Hc; simpl.
  - destruct cur as [|x cur']; constructor; [|constructor].
    intros H. apply Hc. revert H. generalize (x :: cur'). clear.
    induction l as [|a l IH]; simpl; [tauto|].
    destruct l; simpl in *; tauto.
  - destruct (Z.eqb_spec c 10).
    + constructor; [|apply IH; simpl; tauto].
      rewrite removelast_last. exact Hc.
    + apply IH. intros H. apply in_app_or in H as [H|[H|[]]]; auto.
Qed.

Section MatchText.

Context {R : Regex}.
Variable fs : FileSystem.

(** X8.  The [line_content] of a match returned is one line of text: it holds
    neither a line feed nor a carriage return. *)
Theorem match_single_line (req : SearchRequest) tr resp m :
  search_files fs req = (tr, inr resp) ->
  In m (matches resp) ->
  ~ In 10 (line_content m) /\ ~ In 13 (line_content m).
Proof.
  intros H Hin.
  destruct (search_files_returns fs _ _ _ H)
    as (pat & tr0 & files & _ & _ & _ & _ & Hm & _).
  rewrite Hm, scan_files_found in Hin. simpl in Hin.
  apply In_firstn, (all_matches_spec fs) in Hin
    as (_ & _ & lines & line & Hd & Hnth & _ & Hc).
  apply nth_error_In in Hnth.
  assert (L : exists data, In line (Text.readlines data)).
  { destruct (open_ fs (file_path m)) as [|data [k|]]; simpl in Hd;
      [discriminate| |]; injection Hd as <-; exists data; auto.
    exact (In_firstn _ _ _ Hnth). }
  destruct L as [data L]. unfold Text.readlines in L.
  destruct (rstrip_suffix line) as (ws & Hl & _). rewrite <- Hc in Hl.
  split.
  - intros H10.
    pose proof (lines_from_lf
                  (Text.universal_newlines (Text.utf8_ignore data)) []
                  (fun F => F)) as F.
    rewrite Forall_forall in F. apply (F line L). clear F.
    destruct (line_content m) as [|x rc] eqn:E; [contradiction|].
    destruct (exists_last (l := x :: rc)) as (t & c & Et); [discriminate|].
    assert (Hsp : Text.isspace c = false)
      by (apply (rstrip_last line t c); congruence).
    rewrite Et in H10, Hl. rewrite Hl, <- app_assoc.
    rewrite removelast_app by discriminate.
    apply in_or_app; left.
    apply in_app_or in H10 as [H10|[Hc10|[]]]; [exact H10|].
    rewrite Hc10 in Hsp. discriminate Hsp.
  - intros H13.
    apply (universal_newlines_no_cr (Text.utf8_ignore data)).
    rewrite <- (app_nil_l (Text.universal_newlines _)).
    rewrite <- lines_from_concat. apply in_concat.
    exists line; split; [exact L|]. rewrite Hl. apply in_or_app; auto.
Qed.

End MatchText.

(** * More on command execution *)

Section ExecMore.

Variable subprocess_run : pystr -> pystr -> Z -> run_outcome.
Variable resolved_dot : pystr.

(** X2.  [exec_command] passes on what [subprocess.run] did, one for one: a
    response exactly for a [CompletedProcess], with its return code,
    standard output and standard error unchanged; 408 exactly for
    [TimeoutExpired]; and any other exception goes through as it is,
    turned neither into 408 nor into a response. *)
Theorem exec_outcome (req : ExecRequest) :
  let out := subprocess_run (command req) (exec_cwd resolved_dot req)
                            (timeout_seconds req) in
  (forall r,
     exec_command subprocess_run resolved_dot req = inr r <->
     out = CompletedProcess (exit_code r) (stdout r) (stderr r))
  /\ (forall c,
        exec_command subprocess_run resolved_dot req = inl (HTTPException c)
        <-> c = 408 /\ out = TimeoutExpired)
  /\ (forall exc,
        exec_command subprocess_run resolved_dot req = inl (uncaught exc)
        <-> out = RunError exc).
Proof.
  cbv zeta. unfold exec_command.
  destruct (subprocess_run (command req) (exec_cwd resolved_dot req)
                           (timeout_seconds req)) as [rc o e| |exc0].
  - split; [|split].
    + intros r; split.
      * intros [= <-]; reflexivity.
      * intros [= -> -> ->]. destruct r; reflexivity.
    + intros c; split; [discriminate|intros [_ H]; discriminate].
    + intros exc; split; discriminate.
  - split; [|split].
    + intros r; split; discriminate.
    + intros c; split; [intros [= <-]; auto|intros [-> _]; reflexivity].
    + intros exc; split; discriminate.
  - split; [|split].
    + intros r; split; discriminate.
    + intros c; split; [discriminate|intros [_ H]; discriminate].
    + intros exc; split; intros [= <-]; reflexivity.
Qed.

End ExecMore.

(** * The text that is decoded *)

Lemma cont_value (h x : Z) :
  0 <= h -> 128 <= x <= 191 ->
  Z.lor (Z.shiftl h 6) (Z.land x 63) = h * 64 + (x - 128).
Proof.
  intros Hh Hx. replace x with (128 + (x - 128)) at 1 by lia.
  apply cont_bits; lia.
Qed.

Lemma start_ok (b : Z) :
  0 <= b < 256 ->
  match Text.start b with
  | (out, st) =>
      state_ok st /\ match out with Some c => Utf8.scalar c | None => True end
  end.
Proof.
  intros Hb. unfold Text.start, Text.between.
  change 31 with (Z.ones 5). change 15 with (Z.ones 4).
  change 7 with (Z.ones 3).
  zcmp0; cbn [andb state_ok]; (split; [|try exact I]);
    try exact I; try (unfold Utf8.scalar; lia);
    unfold completes; cbn [Text.due Text.bits Text.lo Text.hi];
    rewrite land_mask by lia;
    (split; [darith|]); (split; [lia|]); (split; [lia|]);
    intros; unfold Utf8.scalar; darith.
Qed.

Lemma step_ok (st : option Text.pending) (b : Z) :
  0 <= b < 256 -> state_ok st ->
  match Text.step st b with
  | (out, st') =>
      state_ok st' /\
      match out with Some c => Utf8.scalar c | None => True end
  end.
Proof.
  intros Hb Hst. destruct st as [p|]; [|exact (start_ok b Hb)].
  cbn [Text.step]. unfold Text.between.
  destruct (Z.leb_spec (Text.lo p) b); cbn [andb]; [|exact (start_ok b Hb)].
  destruct (Z.leb_spec b (Text.hi p)); [|exact (start_ok b Hb)].
  destruct Hst as (Hb0 & Hl & Hh & Hc).
  rewrite cont_value by lia.
  destruct (Text.due p) as [|[|[|[|n]]]]; try contradiction.
  - split; [exact I|]. apply Hc; lia.
  - split; [|exact I]. unfold state_ok, completes.
    cbn [Text.due Text.bits Text.lo Text.hi].
    repeat split; try lia. intros y Hy. apply Hc; lia.
  - split; [|exact I]. unfold state_ok, completes.
    cbn [Text.due Text.bits Text.lo Text.hi].
    repeat split; try lia. intros y z Hy Hz. apply Hc; lia.
Qed.

Lemma byte_range (b : byte) : 0 <= Z.of_N (Byte.to_N b) < 256.
Proof. pose proof (Byte.to_N_bounded b). lia. Qed.

Lemma decode_from_scalar (bs : list byte) : forall st,
  state_ok st -> Forall Utf8.scalar (Text.decode_from st bs).
Proof.
  induction bs as [|b bs IH]; intros st Hst; cbn [Text.decode_from];
    [constructor|].
  pose proof (step_ok st _ (byte_range b) Hst) as H.
  destruct (Text.step st (Z.of_N (to_N b))) as [[c|] st']; destruct H as [H1 H2].
  - constructor; [exact H2|apply IH; exact H1].
  - apply IH; exact H1.
Qed.

Lemma universal_newlines_In (s : pystr) (x : Z) :
  In x (Text.universal_newlines s) -> x = 10 \/ In x s.
Proof.
  assert (G : forall n s, (length s <= n)%nat ->
                          In x (Text.universal_newlines s) ->
                          x = 10 \/ In x s).
  { induction n as [|n IH]; intros [|c t] L; simpl in *; try tauto; try lia.
    destruct (c =? 13).
    - intros [H|H]; [auto|].
      destruct t as [|d t']; [contradiction|].
      destruct (d =? 10); apply IH in H; simpl in *; try lia; tauto.
    - intros [H|H]; [auto|]. apply IH in H; [tauto|lia]. }
  exact (G (length s) s (Nat.le_refl _)).
Qed.

Section DecodedText.

Context {R : Regex}.
Variable fs : FileSystem.

(** X9.  Whatever bytes the files hold, the [line_content] of a match returned
    is made of Unicode scalar values only: the decoder that leaves out
    what does not decode delivers no surrogate and nothing above
    U+10FFFF. *)
Theorem match_text_scalar (req : SearchRequest) tr resp m :
  search_files fs req = (tr, inr resp) ->
  In m (matches resp) ->
  Forall Utf8.scalar (line_content m).
Proof.
  intros H Hin.
  destruct (search_files_returns fs _ _ _ H)
    as (pat & tr0 & files & _ & _ & _ & _ & Hm & _).
  rewrite Hm, scan_files_found in Hin. simpl in Hin.
  apply In_firstn, (all_matches_spec fs) in Hin
    as (_ & _ & lines & line & Hd & Hnth & _ & Hc).
  apply nth_error_In in Hnth.
  assert (L : exists data, In line (Text.readlines data)).
  { destruct (open_ fs (file_path m)) as [|data [k|]]; simpl in Hd;
      [discriminate| |]; injection Hd as <-; exists data; auto.
    exact (In_firstn _ _ _ Hnth). }
  destruct L as [data L]. unfold Text.readlines in L.
  destruct (rstrip_suffix line) as (ws & Hl & _). rewrite <- Hc in Hl.
  rewrite Forall_forall. intros x Hx.
  assert (Hu : In x (Text.universal_newlines (Text.utf8_ignore data))).
  { rewrite <- (app_nil_l (Text.universal_newlines _)).
    rewrite <- lines_from_concat. apply in_concat.
    exists line; split; [exact L|]. rewrite Hl. apply in_or_app; auto. }
  apply universal_newlines_In in Hu as [->|Hu].
  - unfold Utf8.scalar; lia.
  - pose proof (decode_from_scalar data None I) as F.
    rewrite Forall_forall in F. exact (F x Hu).
Qed.

End DecodedText.

(** * The handlers on the concrete file system *)

(** ** The table keeps the contracts assumed above *)

Lemma pystr_eqb_refl (p : pystr) : pystr_eqb p p = true.
Proof.
  induction p as [|x p IH]; simpl; [reflexivity|].
  rewrite Z.eqb_refl; exact IH.
Qed.

Lemma find_drop (p : Path) (s : Disk.state) :
  Disk.find p (Disk.drop p s) = None.
Proof.
  unfold Disk.drop.
  induction s as [|[q n] s IH]; simpl; [reflexivity|].
  destruct (pystr_eqb p q) eqn:E; simpl; [exact IH|].
  rewrite E; exact IH.
Qed.

Lemma find_filter_none (p : Path) (f : Path * Disk.node -> bool) s :
  Disk.find p s = None -> Disk.find p (filter f s) = None.
Proof.
  induction s as [|[q n] s IH]; simpl; [reflexivity|].
  destruct (pystr_eqb p q) eqn:E; [discriminate|]. intros H.
  destruct (f (q, n)); simpl; rewrite ?E; auto.
Qed.

Lemma find_put (p : Path) (n : Disk.node) (s : Disk.state) :
  Disk.find p (Disk.put p n s) = Some n.
Proof.
  unfold Disk.put. generalize (find_drop p s).
  induction (Disk.drop p s) as [|[q m] l IH]; simpl.
  - rewrite pystr_eqb_refl; reflexivity.
  - destruct (pystr_eqb p q); [discriminate|exact IH].
Qed.

(** On the table, a write that returns leaves a regular file with the
    bytes written. *)
Lemma disk_write_bytes (w1 : Disk.state) p data w2 :
  write_bytes (World := Disk.disk) w1 p data = (w2, None) ->
  exists_ (view w2) p = Returns true /\ is_file (view w2) p = Returns true /\
  open_ (view w2) p = Content data None.
Proof.
  simpl. unfold Disk.write.
  assert (G : forall s, (if Disk.is_node_dir (parent p) w1
                         then (Disk.put p (Disk.NFile data) w1, None)
                         else (w1, Some s)) = (w2, @None pystr) ->
              Disk.find p w2 = Some (Disk.NFile data)).
  { intros s. destruct (Disk.is_node_dir (parent p) w1); [|discriminate].
    intros [= <-]. apply find_put. }
  destruct (Disk.find p w1) as [[d| |]|]; try discriminate;
    intros H; apply G in H; rewrite H; auto.
Qed.

(** On the table, a removal that returns leaves nothing at its target. *)
Lemma disk_os_remove (w1 : Disk.state) r w2 :
  os_remove (World := Disk.disk) w1 r = (w2, None) ->
  exists_ (view w2) (target r) = Returns false /\
  is_file (view w2) (target r) = Returns false.
Proof.
  simpl. intros H.
  assert (G : Disk.find (target r) w2 = None).
  { destruct r as [p|p|p]; simpl in *.
    - destruct (Disk.find p w1) as [[d| |]|]; try discriminate;
        injection H as <-; apply find_drop.
    - destruct (Disk.is_node_dir p w1); [|discriminate].
      destruct (Disk.children p w1); [|discriminate].
      injection H as <-; apply find_drop.
    - destruct (Disk.is_node_dir p w1); [|discriminate].
      injection H as <-. apply find_filter_none, find_drop. }
  rewrite G. auto.
Qed.

(** ** Concrete requests *)

(** Reads the entries off a [Forall2] over a concrete list of items. *)
Ltac each_entry H tac :=
  repeat (let info := fresh "info" in
          let Hinfo := fresh "Hinfo" in
          apply Forall2_cons_l in H as (info & ? & -> & Hinfo & H);
          tac Hinfo);
  apply Forall2_nil_l in H; subst.

Lemma list_directory_entries_witness :
  exists resp,
    list_directory (W := Disk.disk) Disk.lower Disk.initial
      {| ListDirRequest.path := str "docs/";
         ListDirRequest.include_hidden := false |} = inr resp /\
    ListDirResponse.path resp = str "docs" /\
    Permutation
      (map FileInfo.name (ListDirResponse.files resp))
      [str "b.txt"; str "Zeta"; str "Readme.md"; str "api"].
Proof.
  eexists. split; [reflexivity|].
  destruct (list_directory_entries (W := Disk.disk) Disk.lower Disk.initial
              {| ListDirRequest.path := str "docs/";
                 ListDirRequest.include_hidden := false |} _ eq_refl)
    as (items & infos & Hi & Hpath & Hp & Hall).
  split; [exact Hpath|].
  vm_compute in Hi. injection Hi as <-.
  apply (Permutation_map FileInfo.name) in Hp.
  cbv [filter listed hidden negb andb] in Hall. vm_compute basename in Hall.
  cbv iota beta in Hall.
  each_entry Hall ltac:(fun H => destruct H as (H & _)).
  simpl in Hp. rewrite Hinfo, Hinfo0, Hinfo1, Hinfo2 in Hp. exact Hp.
Defined.

Lemma list_directory_sorted_witness :
  exists resp,
    list_directory (W := Disk.disk) Disk.lower Disk.initial
      {| ListDirRequest.path := str "docs";
         ListDirRequest.include_hidden := true |} = inr resp /\
    map FileInfo.name (ListDirResponse.files resp)
    = [str ".git"; str "api"; str "Zeta"; str "b.txt"; str "Readme.md"] /\
    StronglySorted
      (fun a b =>
         (FileInfo.is_dir b = true -> FileInfo.is_dir a = true) /\
         (FileInfo.is_dir a = FileInfo.is_dir b ->
          pystr_lt (Disk.lower (FileInfo.name b))
                   (Disk.lower (FileInfo.name a)) = false))
      (ListDirResponse.files resp).
Proof.
  eexists. split; [reflexivity|]. split; [reflexivity|].
  apply (list_directory_sorted (W := Disk.disk) Disk.lower Disk.initial
           {| ListDirRequest.path := str "docs";
              ListDirRequest.include_hidden := true |} _ eq_refl).
Defined.

Lemma list_directory_hidden_witness :
  exists resp,
    list_directory (W := Disk.disk) Disk.lower Disk.initial
      {| ListDirRequest.path := str "docs";
         ListDirRequest.include_hidden := false |} = inr resp /\
    forall x rest, In x (ListDirResponse.files resp) ->
                   FileInfo.name x <> 46 :: rest.
Proof.
  eexists. split; [reflexivity|].
  apply (proj1 (list_directory_hidden (W := Disk.disk) Disk.lower
                  Disk.initial
                  {| ListDirRequest.path := str "docs";
                     ListDirRequest.include_hidden := false |} _ eq_refl)
           eq_refl).
Defined.

Lemma list_directory_stable_witness :
  exists resp,
    list_directory (W := Disk.disk) Disk.lower Disk.initial
      {| ListDirRequest.path := str "docs";
         ListDirRequest.include_hidden := true |} = inr resp /\
    map FileInfo.name
        (filter (same_key Disk.lower true (str "api"))
                (ListDirResponse.files resp))
    = [str "api"].
Proof.
  eexists. split; [reflexivity|].
  destruct (list_directory_stable (W := Disk.disk) Disk.lower Disk.initial
              {| ListDirRequest.path := str "docs";
                 ListDirRequest.include_hidden := true |} _
              true (str "api") eq_refl)
    as (items & infos & Hi & Hall & ->).
  vm_compute in Hi. injection Hi as <-.
  cbv [filter listed hidden negb andb] in Hall.
  each_entry Hall ltac:(fun H => vm_compute in H; injection H as <-).
  reflexivity.
Defined.

Lemma utf8_round_trip_witness :
  exists data,
    Utf8.encode [97; 233; 8364; 128512] = Some data /\
    utf8_valid data = true /\
    Text.utf8_ignore data = [97; 233; 8364; 128512] /\
    Utf8.decode data = Some [97; 233; 8364; 128512].
Proof.
  apply (utf8_round_trip [97; 233; 8364; 128512]).
  repeat constructor; unfold Utf8.scalar; lia.
Defined.

Lemma write_file_bytes_written_witness :
  exists w' resp,
    write_file (W := Disk.disk) Disk.initial
      {| WriteRequest.path := str "notes//a.txt";
         WriteRequest.content := [97; 233; 8364; 128512];
         WriteRequest.create_parents := true |} = (w', inr resp) /\
    WriteResponse.path resp = str "notes/a.txt" /\
    WriteResponse.bytes_written resp = 10.
Proof.
  do 2 eexists. split; [reflexivity|].
  destruct (write_file_bytes_written (W := Disk.disk) Disk.initial _
              {| WriteRequest.path := str "notes//a.txt";
                 WriteRequest.content := [97; 233; 8364; 128512];
                 WriteRequest.create_parents := true |} _ eq_refl)
    as (Hpath & (data & Hd & Hb) & _).
  split; [exact Hpath|].
  rewrite Hb. vm_compute in Hd. injection Hd as <-. reflexivity.
Defined.

Lemma write_then_read_witness :
  exists w' resp,
    write_file (W := Disk.disk) Disk.initial
      {| WriteRequest.path := str "notes/a.txt";
         WriteRequest.content := str "one" ++ [13; 10] ++ str "two";
         WriteRequest.create_parents := true |} = (w', inr resp) /\
    read_file (W := Disk.disk) w' {| ReadRequest.path := str "notes/a.txt" |}
    = inr {| ReadResponse.path := str "notes/a.txt";
             ReadResponse.content := str "one" ++ [10] ++ str "two" |}.
Proof.
  do 2 eexists. split; [reflexivity|].
  apply (proj1 (write_then_read (W := Disk.disk) Disk.initial _
                  {| WriteRequest.path := str "notes/a.txt";
                     WriteRequest.content := str "one" ++ [13; 10] ++ str "two";
                     WriteRequest.create_parents := true |} _
                  (fun w1 p d w2 H =>
                     let '(conj _ c) := disk_write_bytes w1 p d w2 H in c)
                  eq_refl)).
Defined.

Lemma write_then_search_witness :
  exists w' resp tr sresp,
    write_file (W := Disk.disk) Disk.initial
      {| WriteRequest.path := str "notes/a.txt";
         WriteRequest.content := str "foo" ++ [13; 10] ++ str "bar foo";
         WriteRequest.create_parents := true |} = (w', inr resp) /\
    search_files (R := Demo.literal_re) (view w')
      (Demo.request "foo" "notes/a.txt" None 10) = (tr, inr sresp) /\
    matches sresp
    = [ match_of (str "notes/a.txt") 1 (str "foo");
        match_of (str "notes/a.txt") 2 (str "bar foo") ].
Proof.
  do 2 eexists.
  destruct (write_then_search (W := Disk.disk) (R := Demo.literal_re)
              Disk.initial _
              {| WriteRequest.path := str "notes/a.txt";
                 WriteRequest.content := str "foo" ++ [13; 10] ++ str "bar foo";
                 WriteRequest.create_parents := true |} _
              (Demo.request "foo" "notes/a.txt" None 10) (str "foo")
              disk_write_bytes eq_refl eq_refl eq_refl)
    as (tr & sresp & Hs & Hm).
  exists tr, sresp. split; [reflexivity|]. split; [exact Hs|].
  rewrite Hm. reflexivity.
Defined.

Lemma delete_file_other_kind_witness :
  delete_file (W := Disk.disk) Disk.initial
    {| DeleteRequest.path := str "pipe"; DeleteRequest.recursive := false |}
  = (Disk.initial,
     inr {| DeleteResponse.path := str "pipe";
            DeleteResponse.deleted := true |}).
Proof.
  apply (delete_file_other_kind (W := Disk.disk) Disk.initial
           {| DeleteRequest.path := str "pipe";
              DeleteRequest.recursive := false |} eq_refl eq_refl eq_refl).
Defined.

Lemma delete_then_gone_witness :
  exists w' resp,
    delete_file (W := Disk.disk) Disk.initial
      {| DeleteRequest.path := str "docs"; DeleteRequest.recursive := true |}
    = (w', inr resp) /\
    read_file (W := Disk.disk) w' {| ReadRequest.path := str "docs" |}
    = inl (HTTPException 404) /\
    snd (delete_file (W := Disk.disk) w'
           {| DeleteRequest.path := str "docs";
              DeleteRequest.recursive := true |})
    = inl (HTTPException 404).
Proof.
  do 2 eexists. split; [reflexivity|].
  destruct (delete_then_gone (W := Disk.disk) (R := Demo.literal_re)
              Disk.initial _
              {| DeleteRequest.path := str "docs";
                 DeleteRequest.recursive := true |} _
              (Demo.request "foo" "docs" None 10)
              disk_os_remove eq_refl (or_intror eq_refl) eq_refl)
    as (Hr & _ & Hd).
  split; [exact Hr|exact Hd].
Defined.


Lemma search_cap_monotone_witness :
  exists tr2 resp2 tr1 resp1,
    search_files (R := Demo.literal_re) Demo.fs
      (Demo.request "foo" "proj" None 3) = (tr2, inr resp2) /\
    search_files (R := Demo.literal_re) Demo.fs
      (Demo.request "foo" "proj" None 1) = (tr1, inr resp1) /\
    matches resp1 = firstn 1 (matches resp2).
Proof.
  do 2 eexists.
  destruct (search_cap_monotone (R := Demo.literal_re) Demo.fs
              (Demo.request "foo" "proj" None 100) 1 3 _ _
              ltac:(lia) eq_refl)
    as (tr1 & resp1 & H1 & Hm).
  exists tr1, resp1. split; [reflexivity|]. split; [exact H1|exact Hm].
Defined.

Lemma search_complete_below_cap_witness :
  exists tr resp,
    search_files (R := Demo.literal_re) Demo.fs
      (Demo.request "foo" "proj" None 100) = (tr, inr resp) /\
    In {| file_path := str "proj/a.txt"; line_number := 3;
          line_content := str "foo bar" |} (matches resp).
Proof.
  do 2 eexists. split; [reflexivity|].
  apply (search_complete_below_cap (R := Demo.literal_re) Demo.fs
           (Demo.request "foo" "proj" None 100) (str "foo") _ _ _ _
           eq_refl eq_refl eq_refl eq_refl
           (str "proj/a.txt") _ 2%nat (str "foo bar" ++ [10])
           (or_introl eq_refl) eq_refl eq_refl eq_refl).
Defined.

Lemma search_matches_ordered_witness :
  exists tr resp,
    search_files (R := Demo.literal_re) Demo.fs
      (Demo.request "foo" "proj" None 100) = (tr, inr resp) /\
    StronglySorted
      (fun a b => file_path a = file_path b ->
                  line_number a < line_number b)
      (matches resp).
Proof.
  do 2 eexists. split; [reflexivity|].
  eapply (search_matches_ordered (R := Demo.literal_re) Demo.fs
            (Demo.request "foo" "proj" None 100));
    [|reflexivity].
  vm_compute.
  repeat (constructor;
          [simpl; intros H;
           repeat (destruct H as [H|H]; [discriminate H|]); exact H|]).
  constructor.
Defined.

Lemma search_opens_candidates_witness :
  is_file Demo.fs (str "proj/c.txt") = Returns true /\
  (str "proj/c.txt" = str "proj"
   \/ In (str "proj/c.txt") (rglob Demo.fs (str "proj"))).
Proof.
  destruct (search_opens_candidates (R := Demo.literal_re) Demo.fs
              (Demo.request "foo" "proj" None 100) _ _ (str "proj/c.txt")
              eq_refl)
    as (Hf & Hc & _).
  - left. vm_compute. auto 20.
  - split; [exact Hf|exact Hc].
Defined.

Lemma read_fault_keeps_matches_witness :
  exists tr resp,
    search_files (R := Demo.literal_re) faulty_fs
      (Demo.request "foo" "f" None 10) = (tr, inr resp) /\
    matches resp = [match_of (str "f") 1 (str "foo")].
Proof.
  destruct (read_fault_keeps_matches (R := Demo.literal_re) faulty_fs
              (Demo.request "foo" "f" None 10) (str "foo") _ 1%nat
              eq_refl eq_refl eq_refl eq_refl)
    as (tr & resp & H & Hm & _).
  exists tr, resp. split; [exact H|]. rewrite Hm. reflexivity.
Defined.

Lemma match_single_line_witness :
  ~ In 10 (str "foo bar") /\ ~ In 13 (str "foo bar").
Proof.
  apply (match_single_line (R := Demo.literal_re) Demo.fs
           (Demo.request "foo" "proj" None 100) _ _
           (match_of (str "proj/a.txt") 3 (str "foo bar" ++ [10]))
           eq_refl).
  vm_compute. auto.
Defined.

Lemma match_text_scalar_witness : Forall Utf8.scalar (str "foo").
Proof.
  apply (match_text_scalar (R := Demo.literal_re) Demo.fs
           (Demo.request "foo" "proj" None 100) _ _
           (match_of (str "proj/sub/b.bin") 1 (str "foo" ++ [10]))
           eq_refl).
  vm_compute. auto.
Defined.
